(** * news_monitor: a shallow embedding of [src/news_monitor.py]

    The script polls investor-relations pages, extracts the links of each page,
    fingerprints them, compares them with the snapshot of the previous run and
    mails a report.  This file embeds the functions of the script and proves
    the properties its specification states about them.

    Python text is modelled by [string]: one character per code point, for
    code points below 256.  On that range the string methods the script uses
    ([lower], [strip], [split], [join], [in], comparison) are closed and are
    written out below. *)

From Stdlib Require Import Ascii String DecimalString.
From stdpp Require Import gmap strings list sorting.

Local Open Scope string_scope.
Local Open Scope list_scope.
Local Open Scope N_scope.

(** ** Python string methods *)

Module PyStr.

Definition code (c : ascii) : N := N_of_ascii c.

(** [str.lower] on one character: the upper-case letters below 256 are
    A-Z and the Latin-1 block U+00C0..U+00DE without the sign U+00D7. *)
Definition is_upper (c : ascii) : bool :=
  let n := code c in
  ((65 <=? n) && (n <=? 90)) || ((192 <=? n) && (n <=? 222) && negb (n =? 215)).

Definition lower_char (c : ascii) : ascii :=
  if is_upper c then ascii_of_N (code c + 32) else c.

Fixpoint lower (s : string) : string :=
  match s with
  | EmptyString => EmptyString
  | String c r => String (lower_char c) (lower r)
  end.

(** [str.isspace] on one character below 256. *)
Definition isspace (c : ascii) : bool :=
  let n := code c in
  ((9 <=? n) && (n <=? 13)) || ((28 <=? n) && (n <=? 32)) || (n =? 133) || (n =? 160).

Fixpoint lstrip (s : string) : string :=
  match s with
  | EmptyString => EmptyString
  | String c r => if isspace c then lstrip r else s
  end.

Fixpoint rstrip (s : string) : string :=
  match s with
  | EmptyString => EmptyString
  | String c r =>
      match rstrip r with
      | EmptyString => if isspace c then EmptyString else String c EmptyString
      | r' => String c r'
      end
  end.

(** [s.strip()] *)
Definition strip (s : string) : string := rstrip (lstrip s).

(** [split_from s] is the word that starts at the head of [s] (empty when
    [s] starts with white space) and the words after it. *)
Fixpoint split_from (s : string) : string * list string :=
  match s with
  | EmptyString => (EmptyString, [])
  | String c r =>
      let '(w, ws) := split_from r in
      if isspace c
      then (EmptyString, match w with EmptyString => ws | _ => w :: ws end)
      else (String c w, ws)
  end.

(** [s.split()]: the maximal runs of characters that are not white space. *)
Definition split (s : string) : list string :=
  let '(w, ws) := split_from s in
  match w with EmptyString => ws | _ => w :: ws end.

(** [sep.join(l)] *)
Fixpoint join (sep : string) (l : list string) : string :=
  match l with
  | [] => EmptyString
  | [x] => x
  | x :: r => x +:+ sep +:+ join sep r
  end.

(** [k in s] for two strings: [k] occurs in [s] as a substring. *)
Fixpoint contains (k s : string) : bool :=
  String.prefix k s ||
  match s with
  | EmptyString => false
  | String _ r => contains k r
  end.

(** [str(n)] for a length. *)
Definition of_nat (n : nat) : string := NilZero.string_of_uint (Nat.to_uint n).

(** The truth value of a string: empty strings are false. *)
Definition truthy (s : string) : bool :=
  match s with EmptyString => false | _ => true end.

(** [a or b] on strings. *)
Definition or_else (a b : string) : string := if truthy a then a else b.

End PyStr.

(** ** [hashlib.sha256]: SHA-256 on a list of bytes (FIPS 180-4) *)

Module Sha256.

Definition mask32 : N := 0xFFFFFFFF.
Definition add32 (a b : N) : N := N.land (a + b) mask32.
Definition rotr (n x : N) : N :=
  N.lor (N.shiftr x n) (N.land (N.shiftl x (32 - n)) mask32).
Definition not32 (x : N) : N := N.lxor x mask32.

Definition Ch (x y z : N) : N := N.lxor (N.land x y) (N.land (not32 x) z).
Definition Maj (x y z : N) : N :=
  N.lxor (N.lxor (N.land x y) (N.land x z)) (N.land y z).
Definition bsig0 (x : N) : N := N.lxor (N.lxor (rotr 2 x) (rotr 13 x)) (rotr 22 x).
Definition bsig1 (x : N) : N := N.lxor (N.lxor (rotr 6 x) (rotr 11 x)) (rotr 25 x).
Definition ssig0 (x : N) : N := N.lxor (N.lxor (rotr 7 x) (rotr 18 x)) (N.shiftr x 3).
Definition ssig1 (x : N) : N := N.lxor (N.lxor (rotr 17 x) (rotr 19 x)) (N.shiftr x 10).

(** The constants are defined as the standard defines them: the first
    thirty-two bits of the fractional parts of the cube roots (for [K]) and
    of the square roots (for [H0]) of the first prime numbers. *)
Definition is_prime (n : nat) : bool :=
  forallb (fun d => negb (n mod d =? 0)%nat) (seq 2 (n - 2)).

Definition primes : list N := map N.of_nat (filter is_prime (seq 2 310)).

Fixpoint cube_root_from (bits : nat) (n r : N) : N :=
  match bits with
  | O => r
  | S b =>
      let r' := r + 2 ^ N.of_nat b in
      cube_root_from b n (if r' * r' * r' <=? n then r' else r)
  end.

Definition cube_root (n : N) : N := cube_root_from 48 n 0.

Definition K : list N :=
  Eval vm_compute in map (fun p => N.land (cube_root (p * 2 ^ 96)) mask32) (take 64 primes).

(** The eight working variables, and the initial hash value. *)
Definition state : Type := N * N * N * N * N * N * N * N.

Definition H0 : state :=
  Eval vm_compute in
  match map (fun p => N.land (N.sqrt (p * 2 ^ 64)) mask32) (take 8 primes) with
  | [a; b; c; d; e; f; g; h] => (a, b, c, d, e, f, g, h)
  | _ => (0, 0, 0, 0, 0, 0, 0, 0)
  end.

Definition round (k wt : N) (s : state) : state :=
  let '(a, b, c, d, e, f, g, h) := s in
  let t1 := add32 (add32 (add32 (add32 h (bsig1 e)) (Ch e f g)) k) wt in
  let t2 := add32 (bsig0 a) (Maj a b c) in
  (add32 t1 t2, a, b, c, add32 d t1, e, f, g).

(** The message schedule is kept as a window of sixteen words: its head is
    the word of the current round. *)
Definition slide (w : list N) : list N :=
  tail w ++
  [add32 (add32 (ssig1 (nth 14 w 0)) (nth 9 w 0)) (add32 (ssig0 (nth 1 w 0)) (nth 0 w 0))].

Fixpoint rounds (ks w : list N) (s : state) : state :=
  match ks with
  | [] => s
  | k :: ks' => rounds ks' (slide w) (round k (nth 0 w 0) s)
  end.

Definition compress (hv : state) (block : list N) : state :=
  let '(a, b, c, d, e, f, g, h) := rounds K block hv in
  let '(a0, b0, c0, d0, e0, f0, g0, h0) := hv in
  (add32 a0 a, add32 b0 b, add32 c0 c, add32 d0 d,
   add32 e0 e, add32 f0 f, add32 g0 g, add32 h0 h).

(** Padding: one bit, zeros up to 56 modulo 64 bytes, the bit length on
    eight bytes. *)
Definition be_bytes (n : nat) (x : N) : list N :=
  map (fun i => N.land (N.shiftr x (8 * N.of_nat i)) 0xFF) (rev (seq 0 n)).

Definition pad (msg : list N) : list N :=
  let len := N.of_nat (length msg) in
  let zeros := N.to_nat ((64 + 55 - len mod 64) mod 64) in
  msg ++ [0x80] ++ repeat 0 zeros ++ be_bytes 8 (8 * len).

Fixpoint words (bytes : list N) : list N :=
  match bytes with
  | b0 :: b1 :: b2 :: b3 :: r =>
      (N.lor (N.shiftl b0 24) (N.lor (N.shiftl b1 16) (N.lor (N.shiftl b2 8) b3))) :: words r
  | _ => []
  end.

(** Absorb the words sixteen at a time. *)
Fixpoint absorb (ws cur : list N) (hv : state) : state :=
  match ws with
  | [] => hv
  | w :: r =>
      let cur' := cur ++ [w] in
      if (length cur' =? 16)%nat then absorb r [] (compress hv cur') else absorb r cur' hv
  end.

Definition digest (msg : list N) : list N :=
  let '(a, b, c, d, e, f, g, h) := absorb (words (pad msg)) [] H0 in
  concat (map (be_bytes 4) [a; b; c; d; e; f; g; h]).

Definition hex_digit (n : N) : ascii :=
  if n <? 10 then ascii_of_N (48 + n) else ascii_of_N (87 + n).

Definition hex_byte (b : N) : string :=
  String (hex_digit (N.shiftr b 4)) (String (hex_digit (N.land b 0xF)) EmptyString).

(** [hashlib.sha256(data).hexdigest()] *)
Definition hexdigest (msg : list N) : string :=
  String.concat EmptyString (map hex_byte (digest msg)).

End Sha256.

(** ** Sorting as [sorted] and [list.sort] do it

    Python's sort is stable: elements that compare equal keep their order.
    A stable sort has one possible result, so the insertion sort below
    returns the list Python returns. *)

Module PySort.

Section Sort.
Context {A : Type} (leb : A -> A -> bool).

Fixpoint insert_sorted (x : A) (l : list A) : list A :=
  match l with
  | [] => [x]
  | y :: r => if leb x y then x :: y :: r else y :: insert_sorted x r
  end.

Fixpoint sort (l : list A) : list A :=
  match l with
  | [] => []
  | x :: r => insert_sorted x (sort r)
  end.

End Sort.

(** The order of Python on tuples of two strings: the first components
    decide unless they are equal. *)
Definition pair_leb (a b : string * string) : bool :=
  match String.compare a.1 b.1 with
  | Lt => true
  | Gt => false
  | Eq => String.leb a.2 b.2
  end.

(** [sorted(l, key=key)] for a key that is a tuple of two strings. *)
Definition sorted_by {A : Type} (key : A -> string * string) (l : list A) : list A :=
  sort (fun a b => pair_leb (key a) (key b)) l.

End PySort.

(** ** [json.dumps] on a list of dictionaries from strings to strings *)

Module Json.

(** A dictionary: its items in insertion order, no key twice. *)
Definition pydict : Type := list (string * string).

Fixpoint dict_get (k : string) (d : pydict) : option string :=
  match d with
  | [] => None
  | (k', v) :: r => if String.eqb k k' then Some v else dict_get k r
  end.

(** Equality of two dictionaries as [==] decides it: the same number of
    items, and every key of the one bound to the same value in the other. *)
Definition dict_eq (d1 d2 : pydict) : Prop :=
  length d1 = length d2 /\ forall k v, dict_get k d1 = Some v -> dict_get k d2 = Some v.

Definition quote : string := String (ascii_of_N 34) EmptyString.

(** The encoder with [ensure_ascii] (the default), on the characters of
    the model, the code points below 256: printable ASCII is kept, the
    quote and the backslash are escaped, every other character becomes a
    short escape or [\u00XX].  (Beyond this range Python writes one or
    two escapes of four digits; nothing below speaks of that range.) *)
Definition escape_char (c : ascii) : string :=
  let n := PyStr.code c in
  if n =? 34 then "\" +:+ quote
  else if n =? 92 then "\\"
  else if n =? 10 then "\n"
  else if n =? 13 then "\r"
  else if n =? 9 then "\t"
  else if n =? 8 then "\b"
  else if n =? 12 then "\f"
  else if (32 <=? n) && (n <=? 126) then String c EmptyString
  else "\u00" +:+ Sha256.hex_byte n.

Fixpoint escape (s : string) : string :=
  match s with
  | EmptyString => EmptyString
  | String c r => escape_char c +:+ escape r
  end.

Definition dumps_str (s : string) : string := quote +:+ escape s +:+ quote.

(** [sort_keys=True] sorts the items of a dictionary, which are tuples. *)
Definition sorted_items (d : pydict) : list (string * string) :=
  PySort.sort PySort.pair_leb d.

(** [separators=(",", ":")] *)
Definition dumps_item (kv : string * string) : string :=
  dumps_str kv.1 +:+ ":" +:+ dumps_str kv.2.

Definition dumps_dict (d : pydict) : string :=
  "{" +:+ PyStr.join "," (map dumps_item (sorted_items d)) +:+ "}".

(** [json.dumps(links, sort_keys=True, separators=(",", ":"))] *)
Definition dumps (l : list pydict) : string :=
  "[" +:+ PyStr.join "," (map dumps_dict l) +:+ "]".

(** [s.encode("utf-8")] for code points below 256. *)
Definition utf8_char (c : ascii) : list N :=
  let n := PyStr.code c in
  if n <? 128 then [n]
  else [N.lor 0xC0 (N.shiftr n 6); N.lor 0x80 (N.land n 0x3F)].

Definition utf8 (s : string) : list N :=
  concat (map utf8_char (list_ascii_of_string s)).

End Json.

(** ** The script *)

Module NewsMonitor.

Definition MAX_LINKS_PER_COMPANY : nat := 50.

(** *** Data *)

Record Company := {
  name : string;
  ticker : string;
  ir_url : string;
  include_keywords : list string;
}.

(** A link, the dictionary with the keys [title] and [url]. *)
Record link := { title : string; url : string }.

Global Instance link_eq_dec : EqDecision link.
Proof. solve_decision. Defined.

Definition link_dict (l : link) : Json.pydict :=
  [("title", title l); ("url", url l)].

(** What the script reads of an [a] element of the parsed page:
    [anchor.get_text(" ", strip=True)] and [anchor["href"]]. *)
Record anchor := { get_text : string; href : string }.

(** The snapshot of one company in the state file.  The file is the one
    the previous run wrote with [save_state]: every snapshot carries its
    five keys, a string under [digest] and a list of links under [links]. *)
Record CompanySnapshot := {
  snap_name : string;
  snap_ir_url : string;
  snap_digest : string;
  snap_links : list link;
  snap_checked_at : string;
}.

(** The state file: [companies], keyed by ticker, and [updated_at]. *)
Record State := {
  companies : gmap string CompanySnapshot;
  updated_at : string;
}.

(** One entry of [changes]. *)
Record ChangeRecord := {
  change_name : string;
  change_ticker : string;
  change_ir_url : string;
  added : list link;
  removed : list link;
}.

(** A message, by the values the script assigns to its headers and to
    its content. *)
Record EmailMessage := {
  Subject : string;
  From : string;
  To : string;
  content : string;
}.

(** The command line, after [parse_args]. *)
Record Args := {
  notify_on_first_run : bool;
  dry_run : bool;
  verbose : bool;
}.

(** *** Exceptions and the outside world *)

Inductive exn :=
| RequestException   (* raised by [requests]: transport errors and [HTTPError] *)
| FileNotFoundError
| ValueError         (* no company; a reference or a header that a library refuses *)
| ParserRejectedMarkup (* raised by BeautifulSoup on a page it cannot parse *)
| RuntimeError (missing : string)
| SMTPException.

(** What [requests.get] does on one request: it raises, or it returns a
    response with a status code and a text. *)
Inductive http_outcome :=
| TransportError
| Response (status_code : Z) (text : string).

(** What a run reads and cannot change: the network (what the n-th call
    of [requests.get] does, by its URL; the library follows redirects
    while it serves a call, and the outcome is that of the whole call),
    the clock (the n-th reading, in the two formats the script prints),
    the environment variables and the mail server.

    A library call that may raise is given by two fields: whether it
    raises, and its result when it does not.  [find_all] stands for
    BeautifulSoup: the [a] elements with an [href] attribute in a page,
    in document order, unless [parser_rejects] the page; [urljoin] for
    [urllib.parse.urljoin], which raises [ValueError] on the references
    for which [urljoin_raises] holds; [header_refused] for the values
    that [EmailMessage] refuses as a header (with [ValueError]), and
    [header_text] for a header value as the message gives it back. *)
Record Env := {
  http_get : nat -> string -> http_outcome;
  parser_rejects : string -> bool;
  find_all : string -> list anchor;
  urljoin_raises : string -> string -> bool;
  urljoin : string -> string -> string;
  isoformat : nat -> string;
  strftime : nat -> string;
  getenv : string -> option string;
  header_refused : string -> bool;
  header_text : string -> string;
  smtp_accepts : EmailMessage -> bool;
}.

Inductive output :=
| Print (line : string)
| PrintMessage (msg : EmailMessage).

(** What a run changes: the files at the two paths (the watchlist as
    [load_companies] builds it from the YAML file, the state as
    [json.load] reads it; [None] when the file is missing), the calls of
    [requests.get] made (the URL given to each call, not the exchanges
    the library makes to serve it), the clock readings taken, what was
    printed and what was mailed. *)
Record World := {
  config_file : option (list Company);
  state_file : option State;
  requests : list string;
  clock : nat;
  stdout : list output;
  outbox : list EmailMessage;
}.

(** Computations that change the world and may raise. *)
Definition M (A : Type) : Type := World -> (exn + A) * World.

Definition ret {A : Type} (a : A) : M A := fun w => (inr a, w).

Definition raise {A : Type} (e : exn) : M A := fun w => (inl e, w).

Definition bind {A B : Type} (m : M A) (k : A -> M B) : M B :=
  fun w =>
    match m w with
    | (inl e, w') => (inl e, w')
    | (inr a, w') => k a w'
    end.

Notation "'let*' x ':=' m 'in' k" := (bind m (fun x => k))
  (at level 10, x name, m at level 100, k at level 200).

Notation "m ';;' k" := (bind m (fun _ => k))
  (at level 100, k at level 200, right associativity).

Definition print (o : output) : M unit :=
  fun w => (inr tt,
            {| config_file := config_file w; state_file := state_file w;
               requests := requests w; clock := clock w;
               stdout := stdout w ++ [o]; outbox := outbox w |}).

(** [datetime.now(timezone.utc)]: the number of the reading. *)
Definition now : M nat :=
  fun w => (inr (clock w),
            {| config_file := config_file w; state_file := state_file w;
               requests := requests w; clock := S (clock w);
               stdout := stdout w; outbox := outbox w |}).

Definition with_state_file (st : State) (w : World) : World :=
  {| config_file := config_file w; state_file := Some st;
     requests := requests w; clock := clock w;
     stdout := stdout w; outbox := outbox w |}.

Definition with_request (u : string) (w : World) : World :=
  {| config_file := config_file w; state_file := state_file w;
     requests := requests w ++ [u]; clock := clock w;
     stdout := stdout w; outbox := outbox w |}.

Definition with_mail (msg : EmailMessage) (w : World) : World :=
  {| config_file := config_file w; state_file := state_file w;
     requests := requests w; clock := clock w;
     stdout := stdout w; outbox := outbox w ++ [msg] |}.

(** *** [load_companies], [load_state], [save_state] *)

Definition load_companies : M (list Company) :=
  fun w =>
    match config_file w with
    | None => (inl FileNotFoundError, w)
    | Some [] => (inl ValueError, w)
    | Some cs => (inr cs, w)
    end.

(** A missing state file reads as the empty dictionary, in which
    [.get("companies", {})] finds no ticker. *)
Definition load_state : M (option State) := fun w => (inr (state_file w), w).

Definition prior_companies (prior_state : option State) : gmap string CompanySnapshot :=
  match prior_state with
  | Some st => companies st
  | None => ∅
  end.

(** The file system takes the write: the directory of the state file can
    be made and the file written. *)
Definition save_state (st : State) : M unit := fun w => (inr tt, with_state_file st w).

(** *** [fetch_links] *)

Section WithEnv.
Variable env : Env.

(** [response.raise_for_status()] raises for the 4xx and 5xx codes. *)
Definition raise_for_status (status_code : Z) : bool :=
  ((400 <=? status_code) && (status_code <? 600))%Z.

(** The request: one call of [requests.get], logged by its URL, followed
    by [raise_for_status]. *)
Definition get_page (u : string) : M string :=
  fun w =>
    let w' := with_request u w in
    match http_get env (length (requests w)) u with
    | TransportError => (inl RequestException, w')
    | Response status_code text =>
        if raise_for_status status_code then (inl RequestException, w') else (inr text, w')
    end.

Definition link_key (x : link) : string * string :=
  (PyStr.lower (title x), PyStr.lower (url x)).

(** One turn of the loop over the anchors when [urljoin] returns: [None]
    where the loop says [continue], the link it appends otherwise. *)
Definition anchor_link (company : Company) (a : anchor) : option link :=
  let text := PyStr.join " " (PyStr.split (get_text a)) in
  let href := PyStr.strip (href a) in
  if negb (PyStr.truthy href) then None
  else
    let absolute := urljoin env (ir_url company) href in
    let lower_text := PyStr.lower text in
    let lower_url := PyStr.lower absolute in
    if match include_keywords company with [] => false | _ => true end
       && negb (existsb (fun k => PyStr.contains k lower_text || PyStr.contains k lower_url)
                        (include_keywords company))
    then None
    else Some {| title := PyStr.or_else text absolute; url := absolute |}.

(** The loop over anchors whose references [urljoin] accepts. *)
Fixpoint collect_links (company : Company) (anchors : list anchor) (links : list link)
  : list link :=
  match anchors with
  | [] => links
  | a :: rest =>
      match anchor_link company a with
      | None => collect_links company rest links
      | Some item => collect_links company rest (links ++ [item])
      end
  end.

(** The turn of the loop for an anchor raises: its reference is not empty
    once stripped, and [urljoin] refuses it. *)
Definition anchor_raises (company : Company) (a : anchor) : bool :=
  PyStr.truthy (PyStr.strip (href a))
  && urljoin_raises env (ir_url company) (PyStr.strip (href a)).

(** The loop over the anchors as it runs: it stops with [ValueError] at
    the first reference that [urljoin] refuses. *)
Fixpoint scan_anchors (company : Company) (anchors : list anchor) (links : list link)
  : exn + list link :=
  match anchors with
  | [] => inr links
  | a :: rest =>
      if anchor_raises company a then inl ValueError
      else
        match anchor_link company a with
        | None => scan_anchors company rest links
        | Some item => scan_anchors company rest (links ++ [item])
        end
  end.

(** [d[k] = v] on a dictionary kept as its items in insertion order: a
    key that is present keeps its place. *)
Fixpoint dict_set {K V : Type} `{EqDecision K} (k : K) (v : V) (d : list (K * V))
  : list (K * V) :=
  match d with
  | [] => [(k, v)]
  | (k', v') :: r => if decide (k = k') then (k', v) :: r else (k', v') :: dict_set k v r
  end.

(** [{(item["title"], item["url"]): item for item in links}] *)
Definition dedupe (links : list link) : list (string * string * link) :=
  foldl (fun d item => dict_set (title item, url item) item d) [] links.

(** The links of a page before the cap, when the loop returns:
    [normalized] after the sort. *)
Definition normalized_links (company : Company) (page : string) : list link :=
  let links := collect_links company (find_all env page) [] in
  let deduped := dedupe links in
  let normalized := map snd deduped in
  PySort.sorted_by link_key normalized.

(** What [fetch_links] returns for a page, when it returns. *)
Definition extract_links (company : Company) (page : string) : list link :=
  take MAX_LINKS_PER_COMPANY (normalized_links company page).

Definition fetch_links (company : Company) (verbose : bool) : M (list link) :=
  let* page := get_page (ir_url company) in
  if parser_rejects env page then raise ParserRejectedMarkup
  else
    match scan_anchors company (find_all env page) [] with
    | inl e => raise e
    | inr links =>
        let deduped := dedupe links in
        let normalized := PySort.sorted_by link_key (map snd deduped) in
        (if verbose
         then print (Print ("[" +:+ ticker company +:+ "] collected "
                            +:+ PyStr.of_nat (length normalized)
                            +:+ " candidate links from " +:+ ir_url company))
         else ret tt) ;;
        ret (take MAX_LINKS_PER_COMPANY normalized)
    end.

(** *** [digest_links] *)

(** The argument is a list of dictionaries; [main] passes the links that
    [fetch_links] built, each with the keys [title] and [url]. *)
Definition digest_links (links : list Json.pydict) : string :=
  let payload := Json.dumps links in
  Sha256.hexdigest (Json.utf8 payload).

(** *** [build_change_report] *)

Definition link_pair (item : link) : string * string := (title item, url item).

Definition pair_key (x : string * string) : string * string :=
  (PyStr.lower x.1, PyStr.lower x.2).

Definition pair_link (x : string * string) : link := {| title := x.1; url := x.2 |}.

(** The sets are sets of tuples; [sorted] reads a set in the order of its
    iteration.  In Python that order changes with the hash seed of the
    process; here it is the order of [elements].  It shows only between
    pairs whose sort keys are equal, and nothing proved below depends on
    it. *)
Definition build_change_report (previous current : list link) : list link * list link :=
  let previous_set : gset (string * string) := list_to_set (map link_pair previous) in
  let current_set : gset (string * string) := list_to_set (map link_pair current) in
  let added := map pair_link (PySort.sorted_by pair_key (elements (current_set ∖ previous_set))) in
  let removed := map pair_link (PySort.sorted_by pair_key (elements (previous_set ∖ current_set))) in
  (added, removed).

(** *** [build_email], [required_env], [send_email] *)

Definition newline : string := String (ascii_of_N 10) EmptyString.

Definition required_env (var : string) : M string :=
  match getenv env var with
  | Some value => if PyStr.truthy value then ret value else raise (RuntimeError var)
  | None => raise (RuntimeError var)
  end.

Definition link_line (sign : string) (item : link) : string :=
  "    " +:+ sign +:+ " " +:+ title item +:+ " -> " +:+ url item.

(** The lines one change adds to the body. *)
Definition change_lines (change : ChangeRecord) : list string :=
  [change_name change +:+ " (" +:+ change_ticker change +:+ ")";
   "Investor page: " +:+ change_ir_url change]
  ++ match added change with
     | [] => []
     | items => "  New links:" :: map (link_line "+") items
     end
  ++ match removed change with
     | [] => []
     | items => "  Removed links:" :: map (link_line "-") items
     end
  ++ [EmptyString].

(** The subject, as the f-string builds it. *)
Definition subject_line (changes : list ChangeRecord) : string :=
  "Portfolio IR updates (" +:+ PyStr.of_nat (length changes) +:+ " company"
  +:+ (if negb (length changes =? 1)%nat then "ies" else EmptyString) +:+ ")".

(** The fields of the message are the values the script assigns.  The
    subject holds no line break, so the message takes it; the sender and
    the recipient are taken unless [header_refused]; the recipient by
    default is [msg["From"]], the sender as the message gives it back. *)
Definition build_email (changes : list ChangeRecord) : M EmailMessage :=
  let* t := now in
  let lines :=
    ["Portfolio news monitor detected updates at " +:+ strftime env t +:+ "."; EmptyString]
    ++ concat (map change_lines changes) in
  let body := PyStr.strip (PyStr.join newline lines) +:+ newline in
  let subject := subject_line changes in
  let* sender := required_env "GMAIL_USERNAME" in
  if header_refused env sender then raise ValueError
  else
    let recipient := default (header_text env sender) (getenv env "NOTIFY_TO") in
    if header_refused env recipient then raise ValueError
    else ret {| Subject := subject; From := sender; To := recipient; content := body |}.

(** [SMTPException] stands for whatever the connection, the login or the
    sending raises; none of these is an exception of [requests]. *)
Definition send_email (msg : EmailMessage) : M unit :=
  let* username := required_env "GMAIL_USERNAME" in
  let* app_password := required_env "GMAIL_APP_PASSWORD" in
  fun w =>
    if smtp_accepts env msg then (inr tt, with_mail msg w) else (inl SMTPException, w).

(** *** [main] *)

(** The body of the loop over the companies.  A snapshot read from the
    state file is a dictionary that is not empty, so [if previous] holds
    exactly when the ticker was found. *)
Definition process_company (args : Args) (prior_state : option State) (company : Company)
    (acc : State * list ChangeRecord) : M (State * list ChangeRecord) :=
  let '(next_state, changes) := acc in
  let* links := fetch_links company (verbose args) in
  let digest := digest_links (map link_dict links) in
  let previous := prior_companies prior_state !! ticker company in
  let previous_digest := snap_digest <$> previous in
  let previous_links := from_option snap_links [] previous in
  let* t := now in
  let next_state :=
    {| companies :=
         <[ticker company :=
             {| snap_name := name company; snap_ir_url := ir_url company;
                snap_digest := digest; snap_links := links;
                snap_checked_at := isoformat env t |}]> (companies next_state);
       updated_at := updated_at next_state |} in
  let is_first_run := match previous with None => true | Some _ => false end in
  let changed :=
    match previous_digest with
    | Some d => negb (String.eqb d digest)
    | None => false
    end in
  if changed || (is_first_run && notify_on_first_run args)
  then
    let '(added_links, removed_links) := build_change_report previous_links links in
    ret (next_state,
         changes ++ [{| change_name := name company; change_ticker := ticker company;
                        change_ir_url := ir_url company;
                        added := added_links; removed := removed_links |}])
  else ret (next_state, changes).

Fixpoint main_loop (args : Args) (prior_state : option State) (cs : list Company)
    (acc : State * list ChangeRecord) : M (State * list ChangeRecord) :=
  match cs with
  | [] => ret acc
  | company :: rest =>
      let* acc' := process_company args prior_state company acc in
      main_loop args prior_state rest acc'
  end.

Definition main (args : Args) : M Z :=
  let* cs := load_companies in
  let* prior_state := load_state in
  let* t := now in
  let next_state := {| companies := ∅; updated_at := isoformat env t |} in
  let* acc := main_loop args prior_state cs (next_state, []) in
  let '(next_state, changes) := acc in
  save_state next_state ;;
  match changes with
  | [] => print (Print "No changes detected.") ;; ret 0%Z
  | _ =>
      let* msg := build_email changes in
      if dry_run args
      then
        print (Print ("Dry run mode: would send this email:" +:+ newline)) ;;
        print (PrintMessage msg) ;;
        ret 0%Z
      else
        send_email msg ;;
        print (Print ("Sent email for " +:+ PyStr.of_nat (length changes)
                      +:+ " company update(s).")) ;;
        ret 0%Z
  end.

(** The entry point: the exit code of the process and the world it leaves. *)
Definition run (args : Args) (w : World) : Z * World :=
  match main args w with
  | (inr code, w') => (code, w')
  | (inl RequestException, w') => (2%Z, w')
  | (inl _, w') => (1%Z, w')
  end.

End WithEnv.

End NewsMonitor.

(** * The vocabulary of the properties *)

Section Vocabulary.
Import NewsMonitor.

(** The order of the sort keys, as a relation. *)
Definition pair_le (a b : string * string) : Prop := PySort.pair_leb a b = true.

Definition key_le {A : Type} (key : A -> string * string) (a b : A) : Prop :=
  pair_le (key a) (key b).

(** [k] occurs in [s]. *)
Definition is_substring (k s : string) : Prop := exists a b, s = a +:+ k +:+ b.

(** The dictionary of the deduplication: every key is the pair of its
    value, and no key occurs twice. *)
Definition dedupe_ok (d : list (string * string * link)) : Prop :=
  NoDup d.*1 /\ Forall (fun kv => kv.1 = link_pair kv.2) d.

Variable env : Env.

(** The text of an anchor as the extractor reads it: white space collapsed. *)
Definition visible_text (a : anchor) : string :=
  PyStr.join " " (PyStr.split (get_text a)).

(** The absolute URL of an anchor on the page of a company. *)
Definition absolute_url (company : Company) (a : anchor) : string :=
  urljoin env (ir_url company) (PyStr.strip (href a)).

(** The request number [n], to the URL [u], raises. *)
Definition fetch_fails (n : nat) (u : string) : bool :=
  match http_get env n u with
  | TransportError => true
  | Response status_code _ => raise_for_status status_code
  end.

(** The page that answers the request number [n], made for a company. *)
Definition page_at (n : nat) (company : Company) : string :=
  match http_get env n (ir_url company) with
  | Response _ page => page
  | TransportError => EmptyString
  end.

(** A call returns: it does not raise. *)
Definition returns {A B : Type} (r : A + B) : bool :=
  match r with inl _ => false | inr _ => true end.

(** What the fetch of a company comes to when its request is the one
    number [n]: the exception of the request, of the parser or of the
    first reference that [urljoin] refuses, the links otherwise. *)
Definition fetch_outcome (n : nat) (company : Company) : exn + list link :=
  match http_get env n (ir_url company) with
  | TransportError => inl RequestException
  | Response status_code page =>
      if raise_for_status status_code then inl RequestException
      else if parser_rejects env page then inl ParserRejectedMarkup
      else
        match scan_anchors env company (find_all env page) [] with
        | inl e => inl e
        | inr _ => inr (extract_links env company page)
        end
  end.

(** A status that the specification calls a success: 2xx. *)
Definition success_status (status_code : Z) : bool :=
  ((200 <=? status_code) && (status_code <? 300))%Z.

(** The order the specification names for the links: by lower-cased
    title, and between equal lower-cased titles by lower-cased URL. *)
Definition title_url_le (x y : link) : Prop :=
  String.ltb (PyStr.lower (title x)) (PyStr.lower (title y)) = true \/
  (PyStr.lower (title x) = PyStr.lower (title y) /\
   String.leb (PyStr.lower (url x)) (PyStr.lower (url y)) = true).

(** The link that the extractor makes of an anchor it keeps. *)
Definition link_of (company : Company) (a : anchor) : link :=
  {| title := PyStr.or_else (visible_text a) (absolute_url company a);
     url := absolute_url company a |}.

(** One of the keywords of the company occurs in the lower-cased text of
    the anchor or in its lower-cased absolute URL. *)
Definition keyword_matches (company : Company) (a : anchor) : Prop :=
  exists k, k ∈ include_keywords company /\
            (is_substring k (PyStr.lower (visible_text a)) \/
             is_substring k (PyStr.lower (absolute_url company a))).

(** The anchors the specification keeps: the reference is not empty, and
    the keywords, when there are some, match. *)
Definition qualifies (company : Company) (a : anchor) : Prop :=
  PyStr.strip (href a) <> EmptyString /\
  (include_keywords company = [] \/ keyword_matches company a).

(** What a step leaves alone: the two files and the mail sent. *)
Definition frame (w w' : World) : Prop :=
  state_file w' = state_file w /\ config_file w' = config_file w /\ outbox w' = outbox w.

(** The links of the snapshot of the previous run, none on a first run. *)
Definition prior_links (prior_state : option State) (company : Company) : list link :=
  match prior_companies prior_state !! ticker company with
  | Some snap => snap_links snap
  | None => []
  end.

(** When the specification asks for a change record: a snapshot of the
    ticker exists and its digest differs from the current one, or none
    exists and first runs are to be notified. *)
Definition notifies (args : Args) (prior_state : option State) (company : Company)
    (links : list link) : Prop :=
  (exists snap, prior_companies prior_state !! ticker company = Some snap /\
                snap_digest snap <> digest_links (map link_dict links)) \/
  (prior_companies prior_state !! ticker company = None /\ notify_on_first_run args = true).

(** The record the specification asks for. *)
Definition change_of (prior_state : option State) (company : Company) (links : list link)
  : ChangeRecord :=
  let report := build_change_report (prior_links prior_state company) links in
  {| change_name := name company; change_ticker := ticker company;
     change_ir_url := ir_url company; added := report.1; removed := report.2 |}.

Global Instance notifies_dec (args : Args) (prior_state : option State) (company : Company)
    (links : list link) : Decision (notifies args prior_state company links).
Proof.
  unfold notifies.
  destruct (prior_companies prior_state !! ticker company) as [snap|].
  - destruct (decide (snap_digest snap = digest_links (map link_dict links))) as [Heq|Hne].
    + right. intros [(s & [= <-] & Hs)|[? _]]; done.
    + left. left. by exists snap.
  - destruct (notify_on_first_run args).
    + left. by right.
    + right. intros [(s & ? & _)|[_ ?]]; done.
Defined.

(** The change records of a whole loop, read off the specification: the
    companies in order, the n-th request answering the n-th company. *)
Fixpoint expected_changes (args : Args) (prior_state : option State) (n : nat)
    (cs : list Company) : list ChangeRecord :=
  match cs with
  | [] => []
  | company :: rest =>
      match http_get env n (ir_url company) with
      | TransportError => []
      | Response _ page =>
          let links := extract_links env company page in
          (if decide (notifies args prior_state company links)
           then [change_of prior_state company links] else [])
          ++ expected_changes args prior_state (S n) rest
      end
  end.

End Vocabulary.

(** ** Sample data for concrete runs *)

Module Sample.
Import NewsMonitor.

Definition acme : Company :=
  {| name := "Acme"; ticker := "ACME"; ir_url := "https://acme.test/ir";
     include_keywords := ["dividend"] |}.

Definition beta : Company :=
  {| name := "Beta"; ticker := "BETA"; ir_url := "https://beta.test/ir";
     include_keywords := [] |}.

Definition anchors : list anchor :=
  [ {| get_text := "Q3  Dividend Announcement"; href := " https://acme.test/q3 " |};
    {| get_text := "Investor Day"; href := "https://acme.test/day" |};
    {| get_text := "Q3 Dividend Announcement"; href := "https://acme.test/q3" |};
    {| get_text := EmptyString; href := "https://acme.test/DIVIDEND.pdf" |} ].

(** A network that answers every request with the given status, a parser
    that finds the anchors above in every page, absolute references that
    [urljoin] takes, headers that the message takes as they are. *)
Definition env_with (answer : nat -> string -> http_outcome) : Env :=
  {| http_get := answer;
     parser_rejects := fun _ => false;
     find_all := fun _ => anchors;
     urljoin_raises := fun _ _ => false;
     urljoin := fun _ reference => reference;
     isoformat := fun n => "2024-01-01T00:00:0" +:+ PyStr.of_nat n +:+ "+00:00";
     strftime := fun n => "2024-01-01 00:0" +:+ PyStr.of_nat n +:+ " UTC";
     getenv := fun var => if String.eqb var "GMAIL_USERNAME" then Some "me@acme.test" else None;
     header_refused := fun _ => false;
     header_text := fun value => value;
     smtp_accepts := fun _ => true |}.

Definition env_ok : Env := env_with (fun _ _ => Response 200 "<html>").

(** The second request meets a server error. *)
Definition env_second_fails : Env :=
  env_with (fun n _ => if (n =? 1)%nat then Response 503 "busy" else Response 200 "<html>").

(** Every request is answered with the status 300, Multiple Choices. *)
Definition env_300 : Env := env_with (fun _ _ => Response 300 "<html>").

(** A page with sixty anchors, numbered from 100, met in decreasing order. *)
Definition sixty_anchors : list anchor :=
  map (fun i : nat => {| get_text := "Release " +:+ PyStr.of_nat (100 + i)%nat;
                         href := "https://beta.test/" +:+ PyStr.of_nat i |})
      (rev (seq 0 60)).

Definition env_sixty : Env :=
  {| http_get := http_get env_ok; find_all := fun _ => sixty_anchors;
     parser_rejects := parser_rejects env_ok;
     urljoin_raises := urljoin_raises env_ok; urljoin := urljoin env_ok;
     header_refused := header_refused env_ok; header_text := header_text env_ok;
     isoformat := isoformat env_ok;
     strftime := strftime env_ok; getenv := getenv env_ok;
     smtp_accepts := smtp_accepts env_ok |}.

(** Sixty anchors numbered from 100, met in decreasing order; the titles
    of the odd ones are in capitals. *)
Definition mixed_title (i : nat) : string :=
  (if Nat.odd i then "RELEASE " else "release ") +:+ PyStr.of_nat (100 + i)%nat.

Definition mixed_anchors : list anchor :=
  map (fun i : nat => {| get_text := mixed_title i;
                         href := "https://beta.test/" +:+ PyStr.of_nat i |})
      (rev (seq 0 60)).

Definition env_mixed : Env :=
  {| http_get := http_get env_ok; find_all := fun _ => mixed_anchors;
     parser_rejects := parser_rejects env_ok;
     urljoin_raises := urljoin_raises env_ok; urljoin := urljoin env_ok;
     header_refused := header_refused env_ok; header_text := header_text env_ok;
     isoformat := isoformat env_ok;
     strftime := strftime env_ok; getenv := getenv env_ok;
     smtp_accepts := smtp_accepts env_ok |}.

(** A reference that [urljoin] refuses with [ValueError]: the bracket of
    an IPv6 address left open. *)
Definition bad_anchor : anchor :=
  {| get_text := "Annual report"; href := "http://[" |}.

(** Every page ends with this anchor; the second request meets a server
    error. *)
Definition env_bad_reference : Env :=
  {| http_get := http_get env_second_fails;
     find_all := fun _ => anchors ++ [bad_anchor];
     parser_rejects := parser_rejects env_ok;
     urljoin_raises := fun _ reference => String.eqb reference "http://[";
     urljoin := urljoin env_ok;
     header_refused := header_refused env_ok; header_text := header_text env_ok;
     isoformat := isoformat env_ok;
     strftime := strftime env_ok; getenv := getenv env_ok;
     smtp_accepts := smtp_accepts env_ok |}.

Definition args : Args :=
  {| notify_on_first_run := true; dry_run := true; verbose := false |}.

Definition world : World :=
  {| config_file := Some [acme; beta]; state_file := None;
     requests := []; clock := 0; stdout := []; outbox := [] |}.

Definition empty_state : State := {| companies := ∅; updated_at := EmptyString |}.

Definition press_a : link := {| title := "Press Release A"; url := "https://x/a" |}.
Definition press_b : link := {| title := "Press Release B"; url := "https://x/b" |}.

End Sample.


(** * Properties *)

(** ** The order on strings and on tuples of strings *)

Section OrderFacts.

Lemma ascii_compare_refl (c : ascii) : Ascii.compare c c = Eq.
Proof. unfold Ascii.compare. apply N.compare_refl. Qed.

Lemma ascii_compare_lt_trans (a b c : ascii) :
  Ascii.compare a b = Lt -> Ascii.compare b c = Lt -> Ascii.compare a c = Lt.
Proof.
  unfold Ascii.compare. rewrite !N.compare_lt_iff. apply N.lt_trans.
Qed.

Lemma string_compare_refl (s : string) : String.compare s s = Eq.
Proof.
  induction s as [|c s IH]; simpl; [done|]. by rewrite ascii_compare_refl.
Qed.

Lemma string_compare_lt_trans (a b c : string) :
  String.compare a b = Lt -> String.compare b c = Lt -> String.compare a c = Lt.
Proof.
  revert b c. induction a as [|x a IH]; intros [|y b] [|z c]; simpl; try done.
  destruct (Ascii.compare x y) eqn:Hxy; try done.
  - apply Ascii.compare_eq_iff in Hxy as ->.
    destruct (Ascii.compare y z) eqn:Hyz; try done. apply IH.
  - destruct (Ascii.compare y z) eqn:Hyz; try done.
    + apply Ascii.compare_eq_iff in Hyz as <-. by rewrite Hxy.
    + by rewrite (ascii_compare_lt_trans x y z).
Qed.

Lemma string_compare_gt_lt (a b : string) :
  String.compare a b = Gt <-> String.compare b a = Lt.
Proof.
  rewrite (String.compare_antisym a b).
  destruct (String.compare b a); simpl; split; congruence.
Qed.

Lemma string_compare_eq (a b : string) : String.compare a b = Eq <-> a = b.
Proof.
  split; [apply String.compare_eq_iff|]. intros ->. apply string_compare_refl.
Qed.

Lemma string_leb_trans (a b c : string) :
  String.leb a b = true -> String.leb b c = true -> String.leb a c = true.
Proof.
  unfold String.leb.
  destruct (String.compare a b) eqn:Hab; try done;
    destruct (String.compare b c) eqn:Hbc; try done; intros _ _.
  - apply string_compare_eq in Hab as ->. by rewrite Hbc.
  - apply string_compare_eq in Hab as ->. by rewrite Hbc.
  - apply string_compare_eq in Hbc as <-. by rewrite Hab.
  - by rewrite (string_compare_lt_trans a b c).
Qed.

Lemma pair_leb_total (a b : string * string) :
  PySort.pair_leb a b = true \/ PySort.pair_leb b a = true.
Proof.
  unfold PySort.pair_leb.
  rewrite (String.compare_antisym b.1 a.1).
  destruct (String.compare a.1 b.1); simpl; auto using String.leb_total.
Qed.

Lemma pair_leb_trans (a b c : string * string) :
  PySort.pair_leb a b = true -> PySort.pair_leb b c = true -> PySort.pair_leb a c = true.
Proof.
  unfold PySort.pair_leb.
  destruct (String.compare a.1 b.1) eqn:Hab; try done;
    destruct (String.compare b.1 c.1) eqn:Hbc; try done.
  - apply string_compare_eq in Hab. apply string_compare_eq in Hbc.
    rewrite Hab, Hbc, string_compare_refl. apply string_leb_trans.
  - apply string_compare_eq in Hab. by rewrite Hab, Hbc.
  - apply string_compare_eq in Hbc. by rewrite <- Hbc, Hab.
  - by rewrite (string_compare_lt_trans _ _ _ Hab Hbc).
Qed.

Lemma pair_leb_antisym (a b : string * string) :
  PySort.pair_leb a b = true -> PySort.pair_leb b a = true -> a = b.
Proof.
  unfold PySort.pair_leb. destruct a as [a1 a2], b as [b1 b2]; simpl.
  rewrite (String.compare_antisym b1 a1).
  destruct (String.compare a1 b1) eqn:Hab; simpl; try done.
  apply string_compare_eq in Hab as ->. intros H1 H2.
  by rewrite (String.leb_antisym _ _ H1 H2).
Qed.

Global Instance pair_le_trans : Transitive pair_le.
Proof. intros a b c. apply pair_leb_trans. Qed.

Global Instance pair_le_antisym : AntiSymm (=) pair_le.
Proof. intros a b. apply pair_leb_antisym. Qed.

End OrderFacts.

(** ** The sort: a permutation of its input, in order *)

Section SortFacts.
Context {A : Type} (key : A -> string * string).

Local Abbreviation ins := (PySort.insert_sorted (fun a b => PySort.pair_leb (key a) (key b))).

Lemma insert_sorted_perm (x : A) (l : list A) : ins x l ≡ₚ x :: l.
Proof.
  induction l as [|y l IH]; simpl; [done|].
  destruct (PySort.pair_leb (key x) (key y)); [done|].
  rewrite IH. apply Permutation_swap.
Qed.

Lemma sorted_by_perm (l : list A) : PySort.sorted_by key l ≡ₚ l.
Proof.
  unfold PySort.sorted_by. induction l as [|x l IH]; simpl; [done|].
  by rewrite insert_sorted_perm, IH.
Qed.

Lemma insert_sorted_sorted (x : A) (l : list A) :
  StronglySorted (key_le key) l -> StronglySorted (key_le key) (ins x l).
Proof.
  induction 1 as [|y l Hl IH Hy]; simpl.
  - repeat constructor.
  - destruct (PySort.pair_leb (key x) (key y)) eqn:Hxy.
    + constructor; [by constructor|]. constructor; [done|].
      eapply Forall_impl; [exact Hy|]. intros z Hz.
      unfold key_le in *. by etrans.
    + constructor; [done|]. rewrite insert_sorted_perm. constructor; [|done].
      destruct (pair_leb_total (key x) (key y)); [congruence|done].
Qed.

Lemma sorted_by_sorted (l : list A) : StronglySorted (key_le key) (PySort.sorted_by key l).
Proof.
  unfold PySort.sorted_by. induction l as [|x l IH]; simpl; [constructor|].
  by apply insert_sorted_sorted.
Qed.

Lemma elem_of_sorted_by (x : A) (l : list A) : x ∈ PySort.sorted_by key l <-> x ∈ l.
Proof. by rewrite sorted_by_perm. Qed.

Lemma length_sorted_by (l : list A) : length (PySort.sorted_by key l) = length l.
Proof. by rewrite sorted_by_perm. Qed.

Lemma NoDup_sorted_by (l : list A) : NoDup l -> NoDup (PySort.sorted_by key l).
Proof. by rewrite sorted_by_perm. Qed.

(** In a sorted list, everything in a prefix is below everything after it. *)
Lemma sorted_take_le (l : list A) (n : nat) (x y : A) :
  StronglySorted (key_le key) l -> x ∈ take n l -> y ∈ drop n l -> key_le key x y.
Proof.
  intros Hl Hx Hy. rewrite <- (take_drop n l) in Hl.
  by eapply StronglySorted_app_1_elem_of.
Qed.

End SortFacts.

(** ** The Link Extractor *)

Section ExtractorFacts.
Import NewsMonitor.
Variable env : Env.

(** The loop over the anchors appends, in order, the link of every anchor
    that it does not skip. *)
Lemma collect_links_omap (company : Company) (anchors : list anchor) (links : list link) :
  collect_links env company anchors links = links ++ omap (anchor_link env company) anchors.
Proof.
  revert links. induction anchors as [|a rest IH]; intros links; simpl.
  - by rewrite app_nil_r.
  - destruct (anchor_link env company a) as [item|]; rewrite IH; [|done].
    by rewrite <- app_assoc.
Qed.

(** A loop that returns has appended what [collect_links] appends. *)
Lemma scan_anchors_collect (company : Company) (anchors : list anchor)
    (links links' : list link) :
  scan_anchors env company anchors links = inr links' ->
  links' = collect_links env company anchors links.
Proof.
  revert links. induction anchors as [|a rest IH]; intros links; simpl.
  - by intros [= <-].
  - destruct (anchor_raises env company a); [done|].
    destruct (anchor_link env company a); apply IH.
Qed.

(** The loop raises nothing but the [ValueError] of [urljoin]. *)
Lemma scan_anchors_raises (company : Company) (anchors : list anchor)
    (links : list link) (e : exn) :
  scan_anchors env company anchors links = inl e -> e = ValueError.
Proof.
  revert links. induction anchors as [|a rest IH]; intros links; simpl; [done|].
  destruct (anchor_raises env company a); [by intros [= <-]|].
  destruct (anchor_link env company a); apply IH.
Qed.

(** The loop returns when [urljoin] takes every reference. *)
Lemma scan_anchors_returns (company : Company) (anchors : list anchor) (links : list link) :
  Forall (fun a => anchor_raises env company a = false) anchors ->
  scan_anchors env company anchors links
  = inr (collect_links env company anchors links).
Proof.
  intros Hall. revert links.
  induction Hall as [|a rest Ha _ IH]; intros links; simpl; [done|].
  rewrite Ha. destruct (anchor_link env company a); apply IH.
Qed.

Lemma dict_set_keys (item : link) (d : list (string * string * link)) :
  (dict_set (link_pair item) item d).*1 =
  if decide (link_pair item ∈ d.*1) then d.*1 else d.*1 ++ [link_pair item].
Proof.
  induction d as [|[k v] d IH]; cbn -[link_pair]; [done|].
  destruct (decide (link_pair item = k)) as [->|Hne]; cbn -[link_pair].
  - rewrite decide_True by left. done.
  - rewrite IH. destruct (decide (link_pair item ∈ d.*1)) as [Hin|Hin].
    + rewrite decide_True by (by right). done.
    + rewrite decide_False; [done|]. by intros [?|?]%elem_of_cons.
Qed.

Lemma link_pair_inj (a b : link) : link_pair a = link_pair b -> a = b.
Proof. destruct a, b; unfold link_pair; simpl. by intros [= -> ->]. Qed.

Lemma dict_set_values (item : link) (d : list (string * string * link)) (x : link) :
  dedupe_ok d ->
  x ∈ (dict_set (link_pair item) item d).*2 <-> x = item \/ x ∈ d.*2.
Proof.
  intros [_ Hkv]. induction d as [|[k v] d IH]; simpl.
  - rewrite list_elem_of_singleton, elem_of_nil. tauto.
  - apply Forall_cons in Hkv as [Hk Hkv]. simpl in Hk.
    destruct (decide (link_pair item = k)) as [Heq|Hne]; simpl.
    + assert (item = v) as -> by (apply link_pair_inj; congruence).
      rewrite !elem_of_cons. tauto.
    + rewrite !elem_of_cons, IH by done. tauto.
Qed.

Lemma dict_set_ok (item : link) (d : list (string * string * link)) :
  dedupe_ok d -> dedupe_ok (dict_set (link_pair item) item d).
Proof.
  intros [Hnd Hkv]. split.
  - rewrite dict_set_keys. case_decide; [done|].
    apply NoDup_app. split_and!; [done| |apply NoDup_singleton].
    intros k Hk ->%list_elem_of_singleton. done.
  - clear Hnd. induction d as [|[k v] d IH]; simpl.
    + by repeat constructor.
    + apply Forall_cons in Hkv as [Hk Hkv]. simpl in Hk.
      destruct (decide (link_pair item = k)) as [Heq|Hne].
      * constructor; [simpl; congruence|done].
      * constructor; [done|]. by apply IH.
Qed.

Lemma dedupe_spec (links : list link) :
  dedupe_ok (dedupe links) /\ forall x, x ∈ (dedupe links).*2 <-> x ∈ links.
Proof.
  unfold dedupe.
  cut (forall d, dedupe_ok d ->
         let d' := foldl (fun d item => dict_set (title item, url item) item d) d links in
         dedupe_ok d' /\ forall x, x ∈ d'.*2 <-> x ∈ d.*2 \/ x ∈ links).
  { intros H. destruct (H []) as [Hok Hin].
    - split; simpl; constructor.
    - split; [done|]. intros x. rewrite Hin. simpl. rewrite elem_of_nil. tauto. }
  induction links as [|item links IH]; intros d Hd; simpl.
  - split; [done|]. intros x. rewrite elem_of_nil. tauto.
  - destruct (IH (dict_set (link_pair item) item d)) as [Hok Hin].
    { by apply dict_set_ok. }
    split; [done|]. intros x. cbv zeta in Hin. unfold link_pair in Hin at 1.
    rewrite Hin, dict_set_values, elem_of_cons by done. tauto.
Qed.

Lemma NoDup_dedupe_values (links : list link) : NoDup (dedupe links).*2.
Proof.
  destruct (dedupe_spec links) as [[Hnd Hkv] _].
  induction (dedupe links) as [|[k v] d IH]; simpl; [constructor|].
  apply Forall_cons in Hkv as [Hk Hkv]. apply NoDup_cons in Hnd as [Hk' Hnd].
  simpl in *. constructor; [|by apply IH].
  intros Hv. apply Hk'. apply list_elem_of_fmap in Hv as [[k2 v2] [-> Hv]].
  apply list_elem_of_fmap. exists (k2, v2). split; [|done].
  rewrite Forall_forall in Hkv. simpl. rewrite Hk. symmetry. by apply (Hkv (k2, v2)).
Qed.

(** The list before the cap holds every collected link once, in order. *)
Lemma normalized_links_spec (company : Company) (page : string) :
  let links := collect_links env company (find_all env page) [] in
  let normalized := normalized_links env company page in
  NoDup normalized /\
  (forall x, x ∈ normalized <-> x ∈ links) /\
  StronglySorted (key_le link_key) normalized /\
  normalized ≡ₚ remove_dups links.
Proof.
  intros links normalized. unfold normalized, normalized_links. fold links.
  assert (NoDup (PySort.sorted_by link_key (map snd (dedupe links)))) as Hnd.
  { apply NoDup_sorted_by, NoDup_dedupe_values. }
  assert (forall x, x ∈ PySort.sorted_by link_key (map snd (dedupe links)) <-> x ∈ links) as Hin.
  { intros x. rewrite elem_of_sorted_by. apply dedupe_spec. }
  split_and!; [done|done|apply sorted_by_sorted|].
  apply NoDup_Permutation; [done|apply NoDup_remove_dups|].
  intros x. by rewrite Hin, elem_of_remove_dups.
Qed.

End ExtractorFacts.

(** ** Substrings *)

Lemma append_cons (c : ascii) (s t : string) : String c s +:+ t = String c (s +:+ t).
Proof. reflexivity. Qed.

Lemma append_empty_l (s : string) : EmptyString +:+ s = s.
Proof. reflexivity. Qed.

Lemma prefix_spec (k s : string) : String.prefix k s = true <-> exists b, s = k +:+ b.
Proof.
  revert s. induction k as [|c k IH]; intros s; simpl.
  - destruct s; simpl; split; eauto.
  - destruct s as [|c' s]; simpl.
    + split; [done|]. by intros [b Hb].
    + setoid_rewrite append_cons.
      destruct (ascii_dec c c') as [->|Hne].
      * rewrite IH. split; intros [b Hb]; exists b; congruence.
      * split; [done|]. intros [b Hb]. congruence.
Qed.

Lemma contains_spec (k s : string) : PyStr.contains k s = true <-> is_substring k s.
Proof.
  unfold is_substring. induction s as [|c s IH]; cbn [PyStr.contains].
  - rewrite orb_false_r, prefix_spec. split.
    + intros [b Hb]. by exists EmptyString, b.
    + intros [[|? a] [b Hb]]; [by exists b|done].
  - rewrite orb_true_iff, prefix_spec, IH. split.
    + intros [[b Hb]|(a & b & Hab)].
      * by exists EmptyString, b.
      * exists (String c a), b. by rewrite append_cons, Hab.
    + intros [[|c' a] [b Hb]].
      * left. by exists b.
      * right. exists a, b. rewrite append_cons in Hb. congruence.
Qed.

Section ExtractorClaims.
Import NewsMonitor.
Variable env : Env.

Global Instance link_pair_Inj : Inj (=) (=) link_pair.
Proof. intros a b. apply link_pair_inj. Qed.

(** An anchor whose reference is empty once stripped is skipped. *)
Lemma anchor_link_blank (company : Company) (a : anchor) :
  PyStr.strip (href a) = EmptyString -> anchor_link env company a = None.
Proof. unfold anchor_link. by intros ->. Qed.

Lemma key_le_title_url (x y : link) : key_le link_key x y <-> title_url_le x y.
Proof.
  unfold key_le, pair_le, PySort.pair_leb, link_key, title_url_le, String.ltb.
  cbn [fst snd].
  destruct (String.compare (PyStr.lower (title x)) (PyStr.lower (title y))) eqn:Hcmp.
  - apply string_compare_eq in Hcmp. split; [by right|]. by intros [?|[_ ?]].
  - split; [by left|done].
  - split; [done|]. intros [?|[Heq _]]; [done|].
    apply string_compare_eq in Heq. congruence.
Qed.

Lemma sorted_title_url (l : list link) :
  StronglySorted (key_le link_key) l -> StronglySorted title_url_le l.
Proof.
  induction 1 as [|x l _ IH Hx]; constructor; [done|].
  eapply Forall_impl; [exact Hx|]. intros y. apply key_le_title_url.
Qed.

(** What [fetch_links] returns, when it returns, is [extract_links] of
    the page it was answered with, and its loop has run to the end. *)
Lemma fetch_links_returns (company : Company) (v : bool) (w w' : World) (out : list link) :
  fetch_links env company v w = (inr out, w') ->
  let page := page_at env (length (requests w)) company in
  scan_anchors env company (find_all env page) []
  = inr (collect_links env company (find_all env page) []) /\
  out = extract_links env company page.
Proof.
  unfold fetch_links, bind, get_page, page_at.
  destruct (http_get env _ _) as [|status_code page]; [done|].
  destruct (raise_for_status status_code); [done|].
  destruct (parser_rejects env page); [done|].
  destruct (scan_anchors env company (find_all env page) []) as [e|links] eqn:Hscan; [done|].
  apply scan_anchors_collect in Hscan as ->.
  destruct v; intros [= <- _]; done.
Qed.

(** C3.  The output of the extractor is the first fifty entries of the
    sorted list of the distinct collected links: it has at most fifty
    entries, exactly fifty when more than fifty distinct pairs qualify, it
    is in order, and every link it keeps is below, by (lowercase title,
    lowercase url), every qualifying link it drops.  Whenever
    [fetch_links] returns on a page, this output is what it returns. *)
Theorem C3_cap_after_sort (company : Company) (page : string) :
  let links := collect_links env company (find_all env page) [] in
  let out := extract_links env company page in
  (exists normalized,
      normalized ≡ₚ remove_dups links /\
      StronglySorted title_url_le normalized /\
      out = take 50 normalized) /\
  (length out <= 50)%nat /\
  ((50 < length (remove_dups links))%nat -> length out = 50%nat) /\
  (forall x, x ∈ out -> x ∈ links) /\
  (forall x y, x ∈ out -> y ∈ links -> y ∉ out -> title_url_le x y) /\
  (forall v w w' result,
     page_at env (length (requests w)) company = page ->
     fetch_links env company v w = (inr result, w') ->
     result = out /\ scan_anchors env company (find_all env page) [] = inr links).
Proof.
  intros links out.
  destruct (normalized_links_spec env company page) as (Hnd & Hin & Hsorted & Hperm).
  fold links in Hin, Hperm.
  set (normalized := normalized_links env company page) in *.
  assert (out = take 50 normalized) as Hout by reflexivity.
  split_and!.
  - exists normalized. split_and!; [done|by apply sorted_title_url|done].
  - rewrite Hout, length_take. lia.
  - intros Hmany. rewrite Hout, length_take, Hperm. lia.
  - intros x Hx. apply Hin. rewrite Hout in Hx.
    by eapply subseteq_take.
  - intros x y Hx Hy Hny. rewrite Hout in Hx, Hny. apply key_le_title_url.
    apply (sorted_take_le link_key normalized 50); [done..|].
    apply Hin in Hy. rewrite <- (take_drop 50 normalized) in Hy.
    apply elem_of_app in Hy as [Hy|Hy]; done.
  - intros v w w' result <- Hfetch.
    apply fetch_links_returns in Hfetch as [Hscan ->]. done.
Qed.


Lemma is_substring_empty (k : string) : is_substring k EmptyString -> k = EmptyString.
Proof.
  intros (a & b & Hab). destruct a; [|done]. rewrite append_empty_l in Hab.
  by destruct k.
Qed.

Lemma empty_is_substring (s : string) : is_substring EmptyString s.
Proof. by exists EmptyString, s. Qed.

(** Whether the keywords match is decided by the link alone. *)
Lemma keyword_matches_link (company : Company) (a : anchor) :
  keyword_matches env company a <->
  exists k, k ∈ include_keywords company /\
            (is_substring k (PyStr.lower (title (link_of env company a))) \/
             is_substring k (PyStr.lower (url (link_of env company a)))).
Proof.
  unfold keyword_matches, link_of, PyStr.or_else. cbn [title url].
  destruct (visible_text a) as [|c text]; cbn [PyStr.truthy PyStr.lower]; [|done].
  split; intros (k & Hk & Hin); exists k; (split; [done|]).
  - destruct Hin as [Hin|Hin]; [|by right].
    apply is_substring_empty in Hin as ->. right. apply empty_is_substring.
  - right. by destruct Hin.
Qed.

Global Instance is_substring_dec (k s : string) : Decision (is_substring k s).
Proof.
  destruct (PyStr.contains k s) eqn:Hin; [left|right].
  - by apply contains_spec.
  - intros Hsub. apply contains_spec in Hsub. congruence.
Defined.

Global Instance keyword_matches_dec (company : Company) (a : anchor) :
  Decision (keyword_matches env company a).
Proof.
  destruct (decide (Exists (fun k => is_substring k (PyStr.lower (visible_text a)) \/
                                     is_substring k (PyStr.lower (absolute_url env company a)))
                           (include_keywords company))) as [Hex|Hex]; [left|right].
  - by apply Exists_exists in Hex.
  - intros Hm. by apply Hex, Exists_exists.
Defined.

Global Instance qualifies_dec (company : Company) (a : anchor) :
  Decision (qualifies env company a).
Proof. unfold qualifies. apply _. Defined.

(** A turn of the loop, when [urljoin] returns, appends the link of an
    anchor that qualifies and nothing otherwise. *)
Lemma anchor_link_qualifies (company : Company) (a : anchor) :
  anchor_link env company a
  = if decide (qualifies env company a) then Some (link_of env company a) else None.
Proof.
  assert (negb (PyStr.truthy (PyStr.strip (href a))) = true
          <-> PyStr.strip (href a) = EmptyString) as Hblank.
  { by destruct (PyStr.strip (href a)). }
  assert (existsb (fun k => PyStr.contains k (PyStr.lower (visible_text a))
                            || PyStr.contains k (PyStr.lower (absolute_url env company a)))
                  (include_keywords company) = true
          <-> keyword_matches env company a) as Hex.
  { rewrite existsb_exists. unfold keyword_matches.
    split; intros (k & Hk & Hin); exists k.
    - split; [by apply list_elem_of_In|].
      apply orb_true_iff in Hin. by rewrite <- !contains_spec.
    - split; [by apply list_elem_of_In|].
      apply orb_true_iff. by rewrite !contains_spec. }
  destruct (decide (qualifies env company a)) as [[Hne Hkw]|Hq];
    unfold anchor_link, link_of;
    fold (visible_text a); fold (absolute_url env company a);
    destruct (negb (PyStr.truthy (PyStr.strip (href a)))) eqn:Htruthy.
  - destruct Hne. by apply Hblank.
  - destruct Hkw as [->|Hm]; [done|].
    apply Hex in Hm. rewrite Hm. by rewrite andb_false_r.
  - done.
  - destruct (include_keywords company) as [|k0 ks] eqn:Hks.
    { destruct Hq. split; [|by left]. intros Heq. apply Hblank in Heq. congruence. }
    destruct (existsb _ (k0 :: ks)) eqn:Htest; [|done].
    destruct Hq. split; [|right; by apply Hex].
    intros Heq. apply Hblank in Heq. congruence.
Qed.

Lemma collect_links_filter (company : Company) (anchors : list anchor) :
  collect_links env company anchors []
  = link_of env company <$> filter (qualifies env company) anchors.
Proof.
  cut (forall links, collect_links env company anchors links
                     = links ++ (link_of env company <$> filter (qualifies env company) anchors)).
  { intros H. by rewrite H. }
  induction anchors as [|a rest IH]; intros links; cbn [collect_links].
  - by rewrite app_nil_r.
  - rewrite anchor_link_qualifies, filter_cons.
    destruct (decide (qualifies env company a)); rewrite IH; [|done].
    by rewrite <- app_assoc.
Qed.

(** C4.  When [fetch_links] returns, its loop has kept the
    links of the anchors that qualify, one for each, in the order of the
    page, and no other: an anchor whose reference is not empty once
    stripped has its link kept exactly when one of the keywords of the
    company occurs in its lowercased text or in its lowercased absolute
    URL, and whatever its text when the company has no keyword; the link
    has the absolute URL, and the text, or the URL when the text is
    empty, as its title.  The output holds kept links only, and all of
    them when they are at most fifty. *)
Theorem C4_keyword_filter (company : Company) (v : bool) (w w' : World) (out : list link) :
  fetch_links env company v w = (inr out, w') ->
  let anchors := find_all env (page_at env (length (requests w)) company) in
  let kept := link_of env company <$> filter (qualifies env company) anchors in
  scan_anchors env company anchors [] = inr kept /\
  (forall a, a ∈ anchors -> PyStr.strip (href a) <> EmptyString ->
     (include_keywords company <> [] ->
      (link_of env company a ∈ kept <-> keyword_matches env company a)) /\
     (include_keywords company = [] -> link_of env company a ∈ kept)) /\
  (forall x, x ∈ out -> x ∈ kept) /\
  ((length (remove_dups kept) <= 50)%nat -> forall x, x ∈ kept -> x ∈ out).
Proof.
  intros Hfetch anchors kept.
  apply fetch_links_returns in Hfetch as [Hscan ->]. fold anchors in Hscan.
  assert (collect_links env company anchors [] = kept) as Hkept
    by apply collect_links_filter.
  rewrite Hkept in Hscan.
  destruct (normalized_links_spec env company
              (page_at env (length (requests w)) company)) as (_ & Hin & _ & Hperm).
  fold anchors in Hin, Hperm. rewrite Hkept in Hin, Hperm.
  split_and!.
  - done.
  - intros a Ha Href. split.
    + intros Hkw. split.
      * intros Hx. apply list_elem_of_fmap in Hx as (a' & Heq & Ha').
        apply list_elem_of_filter in Ha' as [[_ [?|Hm]] _]; [done|].
        apply keyword_matches_link. apply keyword_matches_link in Hm.
        by rewrite Heq.
      * intros Hm. apply list_elem_of_fmap. exists a. split; [done|].
        apply list_elem_of_filter. split; [|done]. split; [done|by right].
    + intros Hkw. apply list_elem_of_fmap. exists a. split; [done|].
      apply list_elem_of_filter. split; [|done]. split; [done|by left].
  - intros x Hx. apply Hin. unfold extract_links in Hx. by eapply subseteq_take.
  - intros Hfew x Hx. unfold extract_links. rewrite take_ge; [by apply Hin|].
    by rewrite Hperm.
Qed.

End ExtractorClaims.

(** ** The Change Detector *)

Section DetectorFacts.
Import NewsMonitor.

Lemma link_pair_link (p : string * string) : link_pair (pair_link p) = p.
Proof. by destruct p. Qed.

Lemma pair_link_pair (x : link) : pair_link (link_pair x) = x.
Proof. by destruct x. Qed.

(** A link is reported for a difference of two sets exactly when its pair
    is in the first list and not in the second. *)
Lemma elem_of_report (x : link) (l1 l2 : list link) :
  let s1 : gset (string * string) := list_to_set (map link_pair l1) in
  let s2 : gset (string * string) := list_to_set (map link_pair l2) in
  x ∈ map pair_link (PySort.sorted_by pair_key (elements (s1 ∖ s2))) <-> x ∈ l1 /\ x ∉ l2.
Proof.
  intros s1 s2.
  assert (forall l : list link, link_pair x ∈ map link_pair l <-> x ∈ l) as Hpair.
  { intros l. split.
    - intros (y & Hxy & Hy)%list_elem_of_fmap. by rewrite (link_pair_inj _ _ Hxy).
    - intros Hx. apply list_elem_of_fmap. by exists x. }
  split.
  - intros (p & -> & Hp)%list_elem_of_fmap.
    apply elem_of_sorted_by, elem_of_elements, elem_of_difference in Hp as [Hp1 Hp2].
    unfold s1, s2 in *. rewrite elem_of_list_to_set in Hp1, Hp2.
    rewrite <- (link_pair_link p) in Hp1, Hp2. by rewrite !Hpair in *.
  - intros [Hx1 Hx2]. apply list_elem_of_fmap. exists (link_pair x).
    split; [by rewrite pair_link_pair|].
    apply elem_of_sorted_by, elem_of_elements, elem_of_difference.
    unfold s1, s2. by rewrite !elem_of_list_to_set, !Hpair.
Qed.

Lemma elem_of_added (x : link) (previous current : list link) :
  x ∈ (build_change_report previous current).1 <-> x ∈ current /\ x ∉ previous.
Proof. apply elem_of_report. Qed.

Lemma elem_of_removed (x : link) (previous current : list link) :
  x ∈ (build_change_report previous current).2 <-> x ∈ previous /\ x ∉ current.
Proof. apply elem_of_report. Qed.

(** C6.  What a comparison of A with B reports as added is what the
    comparison of B with A reports as removed, and the other way round. *)
Theorem C6_detect_symmetric (A B : list link) :
  (build_change_report A B).1 = (build_change_report B A).2 /\
  (build_change_report A B).2 = (build_change_report B A).1.
Proof.
  unfold build_change_report. cbn [fst snd]. split; reflexivity.
Qed.

(** C7.  Comparing a list with itself reports nothing. *)
Theorem C7_detect_same (A : list link) : build_change_report A A = ([], []).
Proof.
  unfold build_change_report.
  rewrite difference_diag_L, elements_empty. reflexivity.
Qed.

(** C10.  No link is reported both as added and as removed, and no
    (title, url) pair occurs in both lists. *)
Theorem C10_added_removed_disjoint (previous current : list link) :
  let report := build_change_report previous current in
  (forall x, x ∈ report.1 -> x ∉ report.2) /\
  (forall p, p ∈ link_pair <$> report.1 -> p ∉ link_pair <$> report.2).
Proof.
  intros report.
  assert (forall x, x ∈ report.1 -> x ∉ report.2) as Hdisj.
  { intros x [_ Hx]%elem_of_added [Hx' _]%elem_of_removed. done. }
  split; [done|].
  intros p (x & -> & Hx)%list_elem_of_fmap (y & Hxy & Hy)%list_elem_of_fmap.
  apply link_pair_inj in Hxy as <-. by apply (Hdisj x).
Qed.

End DetectorFacts.

(** ** The Fingerprinter *)

Section FingerprintFacts.
Import NewsMonitor.

Lemma dict_get_elem (d : Json.pydict) (k v : string) :
  Json.dict_get k d = Some v -> (k, v) ∈ d.
Proof.
  induction d as [|[k' v'] d IH]; simpl; [done|].
  destruct (String.eqb_spec k k') as [->|Hne].
  - intros [= ->]. left.
  - intros H. right. by apply IH.
Qed.

Lemma elem_dict_get (d : Json.pydict) (k v : string) :
  NoDup d.*1 -> (k, v) ∈ d -> Json.dict_get k d = Some v.
Proof.
  induction d as [|[k' v'] d IH]; simpl; [by intros _ ?%elem_of_nil|].
  intros [Hk Hnd]%NoDup_cons [Heq|Hin]%elem_of_cons.
  - injection Heq as -> ->. by rewrite String.eqb_refl.
  - destruct (String.eqb_spec k k') as [->|Hne]; [|by apply IH].
    destruct Hk. apply list_elem_of_fmap. by exists (k', v).
Qed.

(** Two dictionaries that are equal hold the same items. *)
Lemma dict_eq_perm (d1 d2 : Json.pydict) :
  NoDup d1.*1 -> NoDup d2.*1 -> Json.dict_eq d1 d2 -> d1 ≡ₚ d2.
Proof.
  intros Hnd1 Hnd2 [Hlen Hget].
  apply submseteq_length_Permutation; [|by rewrite Hlen].
  apply NoDup_submseteq; [by eapply NoDup_fmap_1|].
  intros [k v] Hkv. by apply dict_get_elem, Hget, elem_dict_get.
Qed.

(** With [sort_keys] the order of insertion does not show. *)
Lemma sorted_items_perm (d1 d2 : Json.pydict) :
  d1 ≡ₚ d2 -> Json.sorted_items d1 = Json.sorted_items d2.
Proof.
  intros Hperm.
  change (PySort.sorted_by id d1 = PySort.sorted_by id d2).
  apply (StronglySorted_unique_strong (key_le id)).
  - intros x1 x2 _ _. apply pair_leb_antisym.
  - apply sorted_by_sorted.
  - apply sorted_by_sorted.
  - by rewrite !sorted_by_perm.
Qed.

Lemma dumps_dict_eq (d1 d2 : Json.pydict) :
  NoDup d1.*1 -> NoDup d2.*1 -> Json.dict_eq d1 d2 ->
  Json.dumps_dict d1 = Json.dumps_dict d2.
Proof.
  intros Hnd1 Hnd2 Heq. unfold Json.dumps_dict.
  by rewrite (sorted_items_perm d1 d2) by by apply dict_eq_perm.
Qed.

(** C8.  Two link lists that are equal, record by record in the same
    order, have the same digest; records are equal as dictionaries are,
    whatever the order in which their keys were inserted. *)
Theorem C8_digest_deterministic (L1 L2 : list Json.pydict) :
  Forall (fun d => NoDup d.*1) L1 ->
  Forall (fun d => NoDup d.*1) L2 ->
  Forall2 Json.dict_eq L1 L2 ->
  digest_links L1 = digest_links L2.
Proof.
  intros Hnd1 Hnd2 Heq. unfold digest_links, Json.dumps.
  assert (map Json.dumps_dict L1 = map Json.dumps_dict L2) as ->; [|done].
  induction Heq as [|d1 d2 L1 L2 Hd HL IH]; [done|].
  apply Forall_cons in Hnd1 as [Hd1 Hnd1]. apply Forall_cons in Hnd2 as [Hd2 Hnd2].
  simpl. f_equal; [by apply dumps_dict_eq|by apply IH].
Qed.

(** The digest of the links of a page reads nothing but their titles and
    URLs, in order. *)
Lemma digest_links_of_links (l1 l2 : list link) :
  l1 = l2 -> digest_links (map link_dict l1) = digest_links (map link_dict l2).
Proof. by intros ->. Qed.

End FingerprintFacts.

(** ** The Report Builder *)

Section ReportFacts.
Import NewsMonitor.

Lemma subject_line_one (c : ChangeRecord) :
  subject_line [c] = "Portfolio IR updates (1 company)".
Proof. reflexivity. Qed.

Lemma subject_line_many (changes : list ChangeRecord) :
  length changes <> 1%nat ->
  subject_line changes =
  "Portfolio IR updates (" +:+ PyStr.of_nat (length changes) +:+ " companyies)".
Proof.
  intros Hlen. unfold subject_line.
  destruct (Nat.eqb_spec (length changes) 1) as [|_]; [done|]. reflexivity.
Qed.

(** The subject of the message that [build_email] returns is [subject_line]. *)
Lemma build_email_subject (env : Env) (changes : list ChangeRecord)
    (w w' : World) (msg : EmailMessage) :
  build_email env changes w = (inr msg, w') -> Subject msg = subject_line changes.
Proof.
  unfold build_email, bind, now, required_env, ret, raise.
  destruct (getenv env "GMAIL_USERNAME") as [value|]; [|done].
  destruct (PyStr.truthy value); [|done].
  destruct (header_refused env value); [done|].
  destruct (header_refused env _); [done|].
  by intros [= <- _].
Qed.

(** C9.  For two changes the subject reads [2 companyies], which is not
    the plural [companies]: the suffix of the plural is appended to the
    whole singular noun. *)
Theorem C9_subject_two_changes (c1 c2 : ChangeRecord) :
  subject_line [c1; c2] = "Portfolio IR updates (2 companyies)" /\
  subject_line [c1; c2] <> "Portfolio IR updates (2 companies)".
Proof.
  assert (subject_line [c1; c2] = "Portfolio IR updates (2 companyies)") as ->.
  { unfold subject_line. simpl length. reflexivity. }
  split; [reflexivity|discriminate].
Qed.

End ReportFacts.

(** ** The Orchestrator *)

Section OrchestratorFacts.
Import NewsMonitor.
Variable env : Env.

Lemma frame_refl (w : World) : frame w w.
Proof. by repeat split. Qed.

Lemma frame_trans (w1 w2 w3 : World) : frame w1 w2 -> frame w2 w3 -> frame w1 w3.
Proof. unfold frame. intros (-> & -> & ->) (-> & -> & ->). done. Qed.

Lemma fetch_links_fails (company : Company) (v : bool) (w : World) :
  fetch_fails env (length (requests w)) (ir_url company) = true ->
  fetch_links env company v w = (inl RequestException, with_request (ir_url company) w).
Proof.
  unfold fetch_fails, fetch_links, bind, get_page.
  destruct (http_get env _ _) as [|status_code text]; [done|]. by intros ->.
Qed.

(** [fetch_links] comes to [fetch_outcome] of the request it makes; it
    makes this one request and leaves the clock, the files and the mail
    alone. *)
Lemma fetch_links_outcome (company : Company) (v : bool) (w : World) :
  exists w',
    fetch_links env company v w = (fetch_outcome env (length (requests w)) company, w') /\
    requests w' = requests w ++ [ir_url company] /\
    clock w' = clock w /\ frame w w'.
Proof.
  unfold fetch_links, fetch_outcome, bind, get_page, raise.
  destruct (http_get env _ _) as [|status_code page].
  { eexists. split; [reflexivity|]. by repeat split. }
  destruct (raise_for_status status_code).
  { eexists. split; [reflexivity|]. by repeat split. }
  destruct (parser_rejects env page).
  { eexists. split; [reflexivity|]. by repeat split. }
  destruct (scan_anchors env company (find_all env page) []) as [e|links] eqn:Hscan.
  { eexists. split; [reflexivity|]. by repeat split. }
  apply scan_anchors_collect in Hscan as ->.
  destruct v; eexists; (split; [reflexivity|]); by repeat split.
Qed.

(** A fetch that returns was answered with a page, and returns the links
    of this page. *)
Lemma fetch_outcome_returns (n : nat) (company : Company) :
  returns (fetch_outcome env n company) = true ->
  fetch_outcome env n company = inr (extract_links env company (page_at env n company)) /\
  fetch_fails env n (ir_url company) = false.
Proof.
  unfold fetch_outcome, fetch_fails, page_at.
  destruct (http_get env _ _) as [|status_code page]; [done|].
  destruct (raise_for_status status_code); [done|].
  destruct (parser_rejects env page); [done|].
  by destruct (scan_anchors env company (find_all env page) []).
Qed.

(** The fetch raises [RequestException] exactly when the request fails. *)
Lemma fetch_outcome_fails (n : nat) (company : Company) :
  fetch_outcome env n company = inl RequestException
  <-> fetch_fails env n (ir_url company) = true.
Proof.
  unfold fetch_outcome, fetch_fails.
  destruct (http_get env _ _) as [|status_code page]; [done|].
  destruct (raise_for_status status_code); [done|].
  destruct (parser_rejects env page); [done|].
  destruct (scan_anchors env company (find_all env page) []) as [e|links] eqn:Hscan; [|done].
  apply scan_anchors_raises in Hscan as ->. done.
Qed.

Lemma fetch_links_succeeds (company : Company) (v : bool) (w : World) :
  returns (fetch_outcome env (length (requests w)) company) = true ->
  exists w',
    fetch_links env company v w
    = (inr (extract_links env company (page_at env (length (requests w)) company)), w') /\
    requests w' = requests w ++ [ir_url company] /\
    clock w' = clock w /\ frame w w'.
Proof.
  intros Hok. apply fetch_outcome_returns in Hok as [Hout _].
  destruct (fetch_links_outcome company v w) as (w' & Hfetch & Hrest).
  exists w'. by rewrite Hfetch, Hout.
Qed.

Lemma app_singleton_neq {A : Type} (l : list A) (x : A) : l ++ [x] <> l.
Proof. intros H. apply (f_equal length) in H. rewrite length_app in H. simpl in H. lia. Qed.

(** A turn of the loop whose fetch succeeds: what it returns. *)
Lemma process_company_changes (args : Args) (prior_state : option State) (company : Company)
    (next_state : State) (changes : list ChangeRecord) (w w1 : World) (links : list link) :
  fetch_links env company (verbose args) w = (inr links, w1) ->
  exists next_state' w',
    process_company env args prior_state company (next_state, changes) w
    = (inr (next_state',
            changes ++ if decide (notifies args prior_state company links)
                       then [change_of prior_state company links] else []), w') /\
    w' = (now w1).2.
Proof.
  intros Hfetch. unfold process_company, bind. rewrite Hfetch.
  unfold ret. cbn [now fst snd]. cbv zeta.
  set (previous := prior_companies prior_state !! ticker company).
  set (cond := _ || _).
  assert (cond = true <-> notifies args prior_state company links) as Hcond.
  { unfold cond, notifies. fold previous.
    destruct previous as [snap|]; simpl.
    - rewrite orb_false_r, negb_true_iff, String.eqb_neq. split.
      + intros Hne. left. by exists snap.
      + intros [(s & [= <-] & Hne)|[? _]]; done.
    - split; [by right|]. intros [(s & ? & _)|[_ ?]]; done. }
  assert (from_option snap_links [] previous = prior_links prior_state company) as ->.
  { unfold prior_links. fold previous. by destruct previous. }
  rewrite (surjective_pairing (build_change_report _ _)).
  fold (change_of prior_state company links).
  destruct (decide (notifies args prior_state company links)) as [Hn|Hn].
  - apply Hcond in Hn as ->. by do 2 eexists.
  - destruct cond; [destruct Hn; by apply Hcond|].
    rewrite app_nil_r. by do 2 eexists.
Qed.

(** C1.  In the turn of the loop for a company whose links were fetched,
    a change record is appended exactly when the specification asks for
    one, and the record appended carries the report of the Change Detector
    on the previous links and the current ones. *)
Theorem C1_change_record_iff (args : Args) (prior_state : option State) (company : Company)
    (next_state : State) (changes : list ChangeRecord) (w w1 : World) (links : list link) :
  fetch_links env company (verbose args) w = (inr links, w1) ->
  exists next_state' changes' w',
    process_company env args prior_state company (next_state, changes) w
    = (inr (next_state', changes'), w') /\
    (notifies args prior_state company links <->
       changes' = changes ++ [change_of prior_state company links]) /\
    (~ notifies args prior_state company links <-> changes' = changes).
Proof.
  intros Hfetch.
  destruct (process_company_changes args prior_state company next_state changes w w1 links Hfetch)
    as (next_state' & w' & Hstep & _).
  eexists _, _, _. split; [exact Hstep|].
  destruct (decide (notifies args prior_state company links)) as [Hn|Hn].
  - split; split; try done.
    intros H. by apply app_singleton_neq in H.
  - rewrite app_nil_r. split; split; try done.
    intros H. symmetry in H. by apply app_singleton_neq in H.
Qed.

Lemma process_company_fails (args : Args) (prior_state : option State) (company : Company)
    (acc : State * list ChangeRecord) (w : World) :
  fetch_fails env (length (requests w)) (ir_url company) = true ->
  process_company env args prior_state company acc w
  = (inl RequestException, with_request (ir_url company) w).
Proof.
  intros Hfails. destruct acc as [next_state changes].
  unfold process_company, bind. by rewrite fetch_links_fails.
Qed.

(** A turn of the loop whose fetch raises: the exception leaves the turn. *)
Lemma process_company_raises (args : Args) (prior_state : option State) (company : Company)
    (acc : State * list ChangeRecord) (w : World) (e : exn) :
  fetch_outcome env (length (requests w)) company = inl e ->
  exists w',
    process_company env args prior_state company acc w = (inl e, w') /\
    requests w' = requests w ++ [ir_url company] /\ frame w w'.
Proof.
  intros Hraise. destruct acc as [next_state changes].
  destruct (fetch_links_outcome company (verbose args) w) as (w' & Hfetch & Hreq & _ & Hframe).
  exists w'. unfold process_company, bind. by rewrite Hfetch, Hraise.
Qed.

Lemma process_company_succeeds (args : Args) (prior_state : option State) (company : Company)
    (acc : State * list ChangeRecord) (w : World) :
  returns (fetch_outcome env (length (requests w)) company) = true ->
  exists acc' w',
    process_company env args prior_state company acc w = (inr acc', w') /\
    requests w' = requests w ++ [ir_url company] /\ frame w w'.
Proof.
  intros Hok. destruct acc as [next_state changes].
  destruct (fetch_links_succeeds company (verbose args) w Hok)
    as (w1 & Hfetch & Hreq & _ & Hframe).
  destruct (process_company_changes args prior_state company next_state changes w w1 _ Hfetch)
    as (next_state' & w' & Hstep & Hw').
  eexists _, w'. split; [exact Hstep|].
  subst w'. simpl. by rewrite Hreq.
Qed.

(** When the request of some company fails and no fetch before it raises
    another exception, the loop stops with [RequestException] at the
    first company whose request fails: it has requested the pages up to
    that one and no other. *)
Lemma main_loop_aborts (args : Args) (prior_state : option State) (cs : list Company)
    (acc : State * list ChangeRecord) (w : World) (i : nat) (c : Company) :
  cs !! i = Some c ->
  fetch_fails env (length (requests w) + i) (ir_url c) = true ->
  (forall j c' e, (j < i)%nat -> cs !! j = Some c' ->
     fetch_outcome env (length (requests w) + j) c' = inl e -> e = RequestException) ->
  exists j w', (j <= i)%nat /\
    main_loop env args prior_state cs acc w = (inl RequestException, w') /\
    requests w' = requests w ++ (ir_url <$> take (S j) cs) /\ frame w w'.
Proof.
  revert acc w i. induction cs as [|c0 cs IH]; intros acc w i Hc Hfails Hbefore; [done|].
  cbn [main_loop]. unfold bind.
  destruct (fetch_outcome env (length (requests w)) c0) as [e|links] eqn:Hc0.
  - assert (e = RequestException) as ->.
    { destruct i as [|i].
      - injection Hc as <-. rewrite Nat.add_0_r in Hfails.
        apply fetch_outcome_fails in Hfails. congruence.
      - apply (Hbefore 0%nat c0); [lia|done|]. by rewrite Nat.add_0_r. }
    destruct (process_company_raises args prior_state c0 acc w _ Hc0)
      as (w' & -> & Hreq & Hframe).
    exists 0%nat, w'. split; [lia|]. by split_and!.
  - destruct i as [|i].
    { injection Hc as <-. rewrite Nat.add_0_r in Hfails.
      apply fetch_outcome_fails in Hfails. congruence. }
    destruct (process_company_succeeds args prior_state c0 acc w)
      as (acc' & w1 & -> & Hreq & Hframe).
    { by rewrite Hc0. }
    assert (forall k, (length (requests w1) + k = length (requests w) + S k)%nat) as Hshift.
    { intros k. rewrite Hreq, length_app. simpl. lia. }
    destruct (IH acc' w1 i Hc) as (j & w' & Hj & Hloop & Hreq' & Hframe').
    { by rewrite Hshift. }
    { intros j c' e Hj Hc' He. rewrite Hshift in He.
      apply (Hbefore (S j) c'); [lia|done|done]. }
    exists (S j), w'. split; [lia|]. split; [done|]. split.
    + rewrite Hreq', Hreq, <- app_assoc. done.
    + by eapply frame_trans.
Qed.

(** A loop that returns has appended, company by company, the records
    the specification asks for. *)
Lemma main_loop_changes (args : Args) (prior_state : option State) (cs : list Company)
    (next_state next_state' : State) (changes changes' : list ChangeRecord) (w w' : World) :
  main_loop env args prior_state cs (next_state, changes) w = (inr (next_state', changes'), w') ->
  changes' = changes ++ expected_changes env args prior_state (length (requests w)) cs.
Proof.
  revert next_state changes w.
  induction cs as [|c cs IH]; intros next_state changes w; cbn [main_loop expected_changes].
  - unfold ret. intros [= _ <- _]. by rewrite app_nil_r.
  - unfold bind.
    destruct (fetch_outcome env (length (requests w)) c) as [e|links] eqn:Hc.
    { destruct (process_company_raises args prior_state c (next_state, changes) w _ Hc)
        as (w1 & -> & _). done. }
    assert (returns (fetch_outcome env (length (requests w)) c) = true) as Hok
      by by rewrite Hc.
    destruct (fetch_outcome_returns _ _ Hok) as [_ Hget].
    destruct (fetch_links_succeeds c (verbose args) w Hok)
      as (w1 & Hfetch & Hreq & _).
    destruct (process_company_changes args prior_state c next_state changes w w1 _ Hfetch)
      as (ns1 & w2 & -> & Hw2).
    intros Hloop. apply IH in Hloop. rewrite Hloop, <- app_assoc.
    subst w2. cbn [now snd requests]. rewrite Hreq, length_app. simpl length.
    rewrite Nat.add_1_r. f_equal. f_equal.
    revert Hget. unfold fetch_fails, page_at.
    by destruct (http_get env _ _).
Qed.

(** C2.  When the request of some company fails, by a transport
    error or by a status that [raise_for_status] refuses (400 to 599),
    and the fetch of no company before it raises an exception that is
    not one of [requests], the run ends with the exit code 2, the state
    file is as it was, no mail is sent, and the pages requested are those
    of the companies up to the first failure: no later company is
    processed. *)
Theorem C2_fetch_failure_aborts (args : Args) (w : World) (cs : list Company)
    (i : nat) (c : Company) :
  config_file w = Some cs ->
  cs !! i = Some c ->
  fetch_fails env (length (requests w) + i) (ir_url c) = true ->
  (forall j c' e, (j < i)%nat -> cs !! j = Some c' ->
     fetch_outcome env (length (requests w) + j) c' = inl e -> e = RequestException) ->
  exists j, (j <= i)%nat /\
    (run env args w).1 = 2%Z /\
    state_file (run env args w).2 = state_file w /\
    requests (run env args w).2 = requests w ++ (ir_url <$> take (S j) cs) /\
    outbox (run env args w).2 = outbox w.
Proof.
  intros Hcfg Hc Hfails Hbefore.
  unfold run, main, bind, load_companies, load_state, now. rewrite Hcfg.
  destruct cs as [|c0 cs']; [done|]. set (cs := c0 :: cs') in *.
  match goal with
  | |- context [main_loop env args ?p cs ?acc ?w0] =>
      destruct (main_loop_aborts args p cs acc w0 i c Hc Hfails Hbefore)
        as (j & w' & Hj & -> & Hreq & (Hst & _ & Hout))
  end.
  exists j. split; [done|]. simpl. by split_and!.
Qed.

End OrchestratorFacts.

(** * Concrete runs *)

Section Examples.
Import NewsMonitor Sample.

Example sha256_abc :
  Sha256.hexdigest [97; 98; 99]
  = "ba7816bf8f01cfea414140de5dae2223b00361a396177a9cb410ff61f20015ad".
Proof. vm_compute. reflexivity. Qed.

Example digest_of_no_links :
  digest_links [] = "4f53cda18c2baa0c0354bb5f9a3ecbe5ed12ab4d8e11ba873c2f11161202b945".
Proof. vm_compute. reflexivity. Qed.

Example lower_ex : PyStr.lower "Q3 Dividend Announcement" = "q3 dividend announcement".
Proof. reflexivity. Qed.

Example split_ex : PyStr.split "  Press   Release A " = ["Press"; "Release"; "A"].
Proof. reflexivity. Qed.

Example strip_ex : PyStr.strip "  /news  " = "/news".
Proof. reflexivity. Qed.

(** Duplicates collapse, the keyword is looked for in the text and in the
    URL, and an anchor without text takes its URL as title. *)
Example extract_ex :
  extract_links env_ok acme "<html>"
  = [ {| title := "https://acme.test/DIVIDEND.pdf"; url := "https://acme.test/DIVIDEND.pdf" |};
      {| title := "Q3 Dividend Announcement"; url := "https://acme.test/q3" |} ].
Proof. vm_compute. reflexivity. Qed.

(** Sixty distinct anchors: fifty links are kept, the first fifty of the
    order. *)
Example cap_ex :
  length (extract_links env_sixty beta "<html>") = 50%nat /\
  (title <$> head (extract_links env_sixty beta "<html>")) = Some "Release 100" /\
  (title <$> last (extract_links env_sixty beta "<html>")) = Some "Release 149".
Proof. vm_compute. repeat split. Qed.

Example report_ex :
  build_change_report [press_a] [press_a; press_b] = ([press_b], []).
Proof. vm_compute. reflexivity. Qed.

End Examples.

(** ** The properties on concrete runs *)

Section Witnesses.
Import NewsMonitor Sample.

(** A first run with the flag set: the fetch succeeds, and the turn of the
    loop appends the record of the company. *)
Lemma C1_change_record_witness :
  fetch_links env_ok acme (verbose args) world
  = (inr (extract_links env_ok acme "<html>"), with_request (ir_url acme) world) /\
  exists next_state' changes' w',
    process_company env_ok args None acme (empty_state, []) world
    = (inr (next_state', changes'), w') /\
    (notifies args None acme (extract_links env_ok acme "<html>") <->
       changes' = [] ++ [change_of None acme (extract_links env_ok acme "<html>")]) /\
    (~ notifies args None acme (extract_links env_ok acme "<html>") <-> changes' = []).
Proof.
  split; [reflexivity|].
  apply (C1_change_record_iff env_ok args None acme empty_state [] world
           (with_request (ir_url acme) world) (extract_links env_ok acme "<html>")).
  reflexivity.
Defined.

(** C2, without its conditions: two runs.  The status 300 is not
    a success, and not one that [raise_for_status] refuses: the page is
    parsed, the run goes on to the end, writes the state file and exits
    with 0.  And where the page of the first company holds a reference
    that [urljoin] refuses, the run ends with the exit code 1 before the
    request of the second company, which would fail, is made. *)
Lemma C2_status_300_not_fatal :
  (http_get env_300 0 (ir_url acme) = Response 300 "<html>" /\
   success_status 300 = false /\
   (run env_300 args world).1 = 0%Z /\
   state_file (run env_300 args world).2 <> state_file world /\
   requests (run env_300 args world).2 = [ir_url acme; ir_url beta]) /\
  (fetch_fails env_bad_reference 1 (ir_url beta) = true /\
   fetch_outcome env_bad_reference 0 acme = inl ValueError /\
   (run env_bad_reference args world).1 = 1%Z /\
   requests (run env_bad_reference args world).2 = [ir_url acme]).
Proof.
  split; split_and!; try reflexivity.
  vm_compute. discriminate.
Qed.

(** The second of two companies meets the status 503, after the fetch of
    the first has returned. *)
Lemma C2_fetch_failure_witness :
  config_file world = Some [acme; beta] /\
  [acme; beta] !! 1%nat = Some beta /\
  fetch_fails env_second_fails (length (requests world) + 1) (ir_url beta) = true /\
  returns (fetch_outcome env_second_fails (length (requests world) + 0) acme) = true /\
  exists j, (j <= 1)%nat /\
    (run env_second_fails args world).1 = 2%Z /\
    state_file (run env_second_fails args world).2 = state_file world /\
    requests (run env_second_fails args world).2
    = requests world ++ (ir_url <$> take (S j) [acme; beta]) /\
    outbox (run env_second_fails args world).2 = outbox world.
Proof.
  split_and!; [reflexivity..|].
  apply (C2_fetch_failure_aborts env_second_fails args world [acme; beta] 1 beta);
    [reflexivity..|].
  intros j c' e Hj Hc' He.
  destruct j as [|j]; [|lia]. injection Hc' as <-.
  vm_compute in He. discriminate.
Defined.

(** Of sixty links the fifty kept are those numbered 100 to 149, in this
    order, whatever the case of their titles and their order on the page;
    this is what [fetch_links] returns. *)
Lemma C3_cap_after_sort_witness :
  (title <$> extract_links env_mixed beta "<html>") = (mixed_title <$> seq 0 50) /\
  fetch_links env_mixed beta false world
  = (inr (extract_links env_mixed beta "<html>"), with_request (ir_url beta) world) /\
  (forall x y,
     x ∈ extract_links env_mixed beta "<html>" ->
     y ∈ collect_links env_mixed beta (find_all env_mixed "<html>") [] ->
     y ∉ extract_links env_mixed beta "<html>" ->
     title_url_le x y).
Proof.
  split; [vm_compute; reflexivity|]. split; [vm_compute; reflexivity|].
  destruct (C3_cap_after_sort env_mixed beta "<html>") as (_ & _ & _ & _ & Hle & _).
  exact Hle.
Defined.

(** C4, without its condition: a page with a reference that [urljoin]
    refuses, for a company without keywords: the loop raises, and no anchor of the page is kept. *)
Lemma C4_refused_reference :
  include_keywords beta = [] /\
  bad_anchor ∈ find_all env_bad_reference "<html>" /\
  PyStr.strip (href bad_anchor) <> EmptyString /\
  scan_anchors env_bad_reference beta (find_all env_bad_reference "<html>") []
  = inl ValueError /\
  fetch_links env_bad_reference beta false world
  = (inl ValueError, with_request (ir_url beta) world).
Proof.
  split_and!; try reflexivity.
  - apply list_elem_of_In. vm_compute. tauto.
  - vm_compute. discriminate.
Qed.

(** The keyword of the company occurs in the text of the first and of
    the third anchor, and in the URL of the fourth. *)
Lemma C4_keyword_filter_witness :
  fetch_links env_ok acme false world
  = (inr (extract_links env_ok acme "<html>"), with_request (ir_url acme) world) /\
  (link_of env_ok acme <$> filter (qualifies env_ok acme) anchors)
  = [ {| title := "Q3 Dividend Announcement"; url := "https://acme.test/q3" |};
      {| title := "Q3 Dividend Announcement"; url := "https://acme.test/q3" |};
      {| title := "https://acme.test/DIVIDEND.pdf"; url := "https://acme.test/DIVIDEND.pdf" |} ] /\
  scan_anchors env_ok acme anchors []
  = inr (link_of env_ok acme <$> filter (qualifies env_ok acme) anchors).
Proof.
  split; [reflexivity|]. split; [vm_compute; reflexivity|].
  destruct (C4_keyword_filter env_ok acme false world
              (with_request (ir_url acme) world) (extract_links env_ok acme "<html>"))
    as (Hscan & _); [reflexivity|].
  exact Hscan.
Defined.

(** The same record with its keys inserted in the two orders. *)
Lemma C8_digest_witness :
  digest_links [[("title", "Press Release A"); ("url", "https://x/a")]]
  = digest_links [[("url", "https://x/a"); ("title", "Press Release A")]].
Proof.
  apply C8_digest_deterministic.
  - repeat constructor; rewrite ?elem_of_cons, ?elem_of_nil; intros H; by intuition.
  - repeat constructor; rewrite ?elem_of_cons, ?elem_of_nil; intros H; by intuition.
  - repeat constructor. intros k v. simpl.
    destruct (String.eqb_spec k "title") as [->|Hne]; [done|].
    destruct (String.eqb_spec k "url") as [->|Hne']; done.
Defined.

End Witnesses.

(** * Further properties of the script *)

(** ** The Change Detector, on any two lists *)

Section DetectorMore.
Import NewsMonitor.

Lemma link_key_pair_link (p : string * string) : link_key (pair_link p) = pair_key p.
Proof. reflexivity. Qed.

Lemma report_list_sorted (s : gset (string * string)) :
  StronglySorted (key_le link_key)
    (map pair_link (PySort.sorted_by pair_key (elements s))).
Proof.
  apply (StronglySorted_fmap _ (key_le pair_key)); [|apply sorted_by_sorted].
  intros x y Hxy. exact Hxy.
Qed.

Lemma report_list_nodup (s : gset (string * string)) :
  NoDup (map pair_link (PySort.sorted_by pair_key (elements s))).
Proof.
  apply NoDup_fmap_2_strong.
  - intros x y _ _ Hxy. by rewrite <- (link_pair_link x), Hxy, link_pair_link.
  - apply NoDup_sorted_by, NoDup_elements.
Qed.

(** The previous links without the removed ones, with the added ones,
    are the current links, as sets. *)
Theorem report_rebuilds_current (previous current : list link) (x : link) :
  x ∈ current <->
  (x ∈ previous /\ x ∉ (build_change_report previous current).2) \/
  x ∈ (build_change_report previous current).1.
Proof.
  rewrite elem_of_added, elem_of_removed.
  destruct (decide (x ∈ previous)) as [Hp|Hp]; destruct (decide (x ∈ current)) as [Hc|Hc];
    split; tauto.
Qed.

(** Whatever the order and the duplicates of the two lists, each list of
    the report is in the order of (lowercase title, lowercase url) and
    holds no link twice. *)
Theorem report_sorted_nodup (previous current : list link) :
  let report := build_change_report previous current in
  StronglySorted (key_le link_key) report.1 /\ NoDup report.1 /\
  StronglySorted (key_le link_key) report.2 /\ NoDup report.2.
Proof.
  intros report. unfold report, build_change_report. cbn [fst snd].
  split_and!; auto using report_list_sorted, report_list_nodup.
Qed.

(** The report is empty exactly when the two lists hold the same links,
    in whatever order and however many times. *)
Theorem report_empty_iff (previous current : list link) :
  build_change_report previous current = ([], []) <->
  (forall x, x ∈ previous <-> x ∈ current).
Proof.
  split.
  - intros Hreport x.
    pose proof (elem_of_added x previous current) as Ha.
    pose proof (elem_of_removed x previous current) as Hr.
    rewrite Hreport in Ha, Hr. cbn [fst snd] in Ha, Hr. rewrite elem_of_nil in Ha, Hr.
    destruct (decide (x ∈ previous)); destruct (decide (x ∈ current)); tauto.
  - intros Hsame.
    destruct (build_change_report previous current) as [a r] eqn:Hreport.
    assert (a = []) as ->.
    { destruct a as [|x a]; [done|].
      pose proof (elem_of_added x previous current) as Ha.
      rewrite Hreport in Ha. cbn [fst] in Ha.
      destruct (proj1 Ha) as [Hc Hp]; [left|]. by apply Hsame in Hc. }
    assert (r = []) as ->; [|done].
    destruct r as [|x r]; [done|].
    pose proof (elem_of_removed x previous current) as Hr.
    rewrite Hreport in Hr. cbn [snd] in Hr.
    destruct (proj1 Hr) as [Hp Hc]; [left|]. by apply Hsame in Hp.
Qed.

(** Against no previous links, as on a first run, nothing is removed and
    every current link is added once. *)
Theorem report_first_run (current : list link) :
  (build_change_report [] current).2 = [] /\
  (build_change_report [] current).1 ≡ₚ remove_dups current.
Proof.
  split.
  - destruct (build_change_report [] current).2 as [|x r] eqn:Hr; [done|].
    pose proof (elem_of_removed x [] current) as Hx. rewrite Hr in Hx.
    destruct (proj1 Hx) as [Hnil _]; [left|]. by apply elem_of_nil in Hnil.
  - apply NoDup_Permutation.
    + unfold build_change_report. cbn [fst]. apply report_list_nodup.
    + apply NoDup_remove_dups.
    + intros x. rewrite elem_of_added, elem_of_remove_dups, elem_of_nil. tauto.
Qed.

End DetectorMore.

(** ** The Fingerprinter: the shape of a digest *)

(** Every character of [s] passes the test [p]. *)
Fixpoint all_chars (p : ascii -> bool) (s : string) : bool :=
  match s with
  | EmptyString => true
  | String c r => p c && all_chars p r
  end.

(** A digit, or a letter from [a] to [f]. *)
Definition is_hex_lower (c : ascii) : bool :=
  let n := PyStr.code c in
  ((48 <=? n) && (n <=? 57)) || ((97 <=? n) && (n <=? 102)).

Section DigestShape.
Import NewsMonitor.

Lemma all_chars_append (p : ascii -> bool) (s t : string) :
  all_chars p (s +:+ t) = all_chars p s && all_chars p t.
Proof.
  induction s as [|c s IH]; [done|].
  rewrite append_cons. simpl. by rewrite IH, andb_assoc.
Qed.

Lemma length_append (s t : string) :
  String.length (s +:+ t) = (String.length s + String.length t)%nat.
Proof. induction s as [|c s IH]; [done|]. rewrite append_cons. simpl. by rewrite IH. Qed.

Lemma hex_digit_hex (n : N) : n < 16 -> is_hex_lower (Sha256.hex_digit n) = true.
Proof.
  intros Hn. rewrite <- (N2Nat.id n).
  assert (N.to_nat n < 16)%nat as Hk by lia.
  revert Hk. generalize (N.to_nat n). intros k Hk.
  do 16 (destruct k as [|k]; [reflexivity|]). lia.
Qed.

Lemma hex_byte_shape (b : N) :
  b < 256 ->
  String.length (Sha256.hex_byte b) = 2%nat /\ all_chars is_hex_lower (Sha256.hex_byte b) = true.
Proof.
  intros Hb. split; [reflexivity|]. unfold Sha256.hex_byte. simpl.
  rewrite !hex_digit_hex; [done| |].
  - change 0xF with (N.ones 4). rewrite N.land_ones. by apply N.mod_lt.
  - rewrite N.shiftr_div_pow2. change (2 ^ 4) with 16.
    apply N.Div0.div_lt_upper_bound. lia.
Qed.

Lemma be_bytes_shape (n : nat) (x : N) :
  length (Sha256.be_bytes n x) = n /\ Forall (fun b => b < 256) (Sha256.be_bytes n x).
Proof.
  unfold Sha256.be_bytes. split.
  - by rewrite length_map, length_rev, length_seq.
  - apply Forall_forall. intros b (i & -> & _)%list_elem_of_fmap.
    change 0xFF with (N.ones 8). rewrite N.land_ones. by apply N.mod_lt.
Qed.

Lemma digest_shape (msg : list N) :
  length (Sha256.digest msg) = 32%nat /\ Forall (fun b => b < 256) (Sha256.digest msg).
Proof.
  unfold Sha256.digest.
  destruct (Sha256.absorb _ _ _) as [[[[[[[a b] c] d] e] f] g] h].
  cbn [map concat]. rewrite !length_app, !Forall_app.
  pose proof (be_bytes_shape 4) as Hshape.
  split.
  - rewrite !(proj1 (Hshape _)). done.
  - split_and!; try apply Hshape. constructor.
Qed.

Lemma hex_string_shape (bytes : list N) :
  Forall (fun b => b < 256) bytes ->
  String.length (String.concat EmptyString (map Sha256.hex_byte bytes))
  = (2 * length bytes)%nat /\
  all_chars is_hex_lower (String.concat EmptyString (map Sha256.hex_byte bytes)) = true.
Proof.
  induction 1 as [|b bytes Hb Hbytes [IHlen IHhex]]; [done|].
  destruct (hex_byte_shape b Hb) as [Hlen Hhex].
  cbn [map String.concat].
  destruct (map Sha256.hex_byte bytes) as [|h hs] eqn:Hmap.
  - destruct bytes; [|done]. by rewrite Hlen, Hhex.
  - change (Sha256.hex_byte b +:+ EmptyString +:+ String.concat EmptyString (h :: hs))
      with (Sha256.hex_byte b +:+ String.concat EmptyString (h :: hs)).
    rewrite length_append, all_chars_append, Hlen, Hhex, IHlen, IHhex.
    split; [simpl; lia|done].
Qed.

(** A digest is a string of sixty-four characters, each a digit or a
    lowercase letter from [a] to [f], whatever the links. *)
Theorem digest_links_shape (links : list Json.pydict) :
  String.length (digest_links links) = 64%nat /\
  all_chars is_hex_lower (digest_links links) = true.
Proof.
  unfold digest_links, Sha256.hexdigest.
  destruct (digest_shape (Json.utf8 (Json.dumps links))) as [Hlen Hbytes].
  destruct (hex_string_shape _ Hbytes) as [Hlen' Hhex].
  by rewrite Hlen', Hlen, Hhex.
Qed.

End DigestShape.

(** ** The Fingerprinter: the payload determines the links *)

(** The value of a lowercase hexadecimal digit. *)
Definition hex_value (c : ascii) : option N :=
  let n := PyStr.code c in
  if (48 <=? n) && (n <=? 57) then Some (n - 48)
  else if (97 <=? n) && (n <=? 102) then Some (n - 87)
  else None.

(** Reading back the first escaped character of the inside of a JSON
    string: nothing at the closing quote. *)
Definition unescape_head (s : string) : option (ascii * string) :=
  match s with
  | EmptyString => None
  | String c r =>
      if PyStr.code c =? 34 then None
      else if PyStr.code c =? 92 then
        match r with
        | EmptyString => None
        | String e r' =>
            let n := PyStr.code e in
            if n =? 34 then Some (ascii_of_N 34, r')
            else if n =? 92 then Some (ascii_of_N 92, r')
            else if n =? 110 then Some (ascii_of_N 10, r')
            else if n =? 114 then Some (ascii_of_N 13, r')
            else if n =? 116 then Some (ascii_of_N 9, r')
            else if n =? 98 then Some (ascii_of_N 8, r')
            else if n =? 102 then Some (ascii_of_N 12, r')
            else if n =? 117 then
              match r' with
              | String _ (String _ (String h1 (String h2 r''))) =>
                  match hex_value h1, hex_value h2 with
                  | Some a, Some b => Some (ascii_of_N (16 * a + b), r'')
                  | _, _ => None
                  end
              | _ => None
              end
            else None
        end
      else Some (c, r)
  end.

Section PayloadInjective.
Import NewsMonitor.

Lemma append_assoc (s t u : string) : (s +:+ t) +:+ u = s +:+ t +:+ u.
Proof. induction s as [|c s IH]; [done|]. by rewrite !append_cons, IH. Qed.

Lemma unescape_escape_char (c : ascii) (r : string) :
  unescape_head (Json.escape_char c +:+ r) = Some (c, r).
Proof. destruct c as [[] [] [] [] [] [] [] []]; vm_compute; reflexivity. Qed.

Lemma unescape_quote (r : string) : unescape_head (Json.quote +:+ r) = None.
Proof. reflexivity. Qed.

(** An escaped string ends at the first quote that is not escaped. *)
Lemma escape_quote_inj (s1 s2 r1 r2 : string) :
  Json.escape s1 +:+ Json.quote +:+ r1 = Json.escape s2 +:+ Json.quote +:+ r2 ->
  s1 = s2 /\ r1 = r2.
Proof.
  revert s2. induction s1 as [|c1 s1 IH]; intros [|c2 s2]; cbn [Json.escape];
    rewrite ?append_empty_l, ?append_assoc; intros Heq.
  - split; [done|]. by apply (inj (String.append Json.quote)) in Heq.
  - apply (f_equal unescape_head) in Heq.
    by rewrite unescape_quote, unescape_escape_char in Heq.
  - apply (f_equal unescape_head) in Heq.
    by rewrite unescape_quote, unescape_escape_char in Heq.
  - apply (f_equal unescape_head) in Heq.
    rewrite !unescape_escape_char in Heq. injection Heq as -> Heq.
    destruct (IH _ Heq) as [-> ->]. done.
Qed.

(** The serialization of one link: its two strings between fixed texts. *)
Lemma dumps_link (item : link) (r : string) :
  Json.dumps_dict (link_dict item) +:+ r
  = ("{" +:+ Json.quote +:+ "title" +:+ Json.quote +:+ ":" +:+ Json.quote)
    +:+ Json.escape (title item) +:+ Json.quote
    +:+ ("," +:+ Json.quote +:+ "url" +:+ Json.quote +:+ ":" +:+ Json.quote)
    +:+ Json.escape (url item) +:+ Json.quote +:+ "}" +:+ r.
Proof.
  unfold Json.dumps_dict, link_dict.
  change (Json.sorted_items [("title", title item); ("url", url item)])
    with [("title", title item); ("url", url item)].
  cbn [map PyStr.join]. unfold Json.dumps_item, Json.dumps_str. cbn [fst snd].
  change (Json.escape "title") with "title". change (Json.escape "url") with "url".
  by rewrite !append_assoc.
Qed.

Lemma dumps_link_inj (item1 item2 : link) (r1 r2 : string) :
  Json.dumps_dict (link_dict item1) +:+ r1 = Json.dumps_dict (link_dict item2) +:+ r2 ->
  item1 = item2 /\ r1 = r2.
Proof.
  rewrite !dumps_link. intros Heq.
  apply (inj (String.append _)) in Heq.
  apply escape_quote_inj in Heq as [Htitle Heq].
  apply (inj (String.append _)) in Heq.
  apply escape_quote_inj in Heq as [Hurl Heq].
  apply (inj (String.append _)) in Heq.
  split; [|done]. destruct item1, item2; simpl in *; congruence.
Qed.

(** What follows the first dictionary of a list: the end of the list, or
    a comma and the other dictionaries. *)
Definition dumps_rest (items : list link) : string :=
  match items with
  | [] => "]"
  | _ => "," +:+ PyStr.join "," (map Json.dumps_dict (map link_dict items)) +:+ "]"
  end.

Lemma join_dumps_cons (item : link) (items : list link) :
  PyStr.join "," (map Json.dumps_dict (map link_dict (item :: items))) +:+ "]"
  = Json.dumps_dict (link_dict item) +:+ dumps_rest items.
Proof.
  destruct items as [|item' items]; [done|].
  cbn [map PyStr.join dumps_rest]. by rewrite !append_assoc.
Qed.

Lemma dumps_rest_inj (items1 items2 : list link) :
  dumps_rest items1 = dumps_rest items2 -> items1 = items2.
Proof.
  revert items2. induction items1 as [|item1 items1 IH]; intros [|item2 items2]; try done.
  unfold dumps_rest. intros Heq. apply (inj (String.append _)) in Heq.
  rewrite !join_dumps_cons in Heq.
  apply dumps_link_inj in Heq as [-> Heq]. by rewrite (IH _ Heq).
Qed.

(** Two lists of links whose titles and URLs hold only code points below
    256 (the strings of this model) and that have the same payload are
    the same list: the same titles and URLs in the same order.  On this
    range two digests differ whenever the lists do, unless SHA-256
    collides. *)
Theorem payload_determines_links (links1 links2 : list link) :
  Json.dumps (map link_dict links1) = Json.dumps (map link_dict links2) ->
  links1 = links2.
Proof.
  unfold Json.dumps. intros Heq. apply (inj (String.append _)) in Heq.
  destruct links1 as [|item1 links1], links2 as [|item2 links2]; try done.
  - rewrite join_dumps_cons in Heq. by rewrite dumps_link in Heq.
  - rewrite join_dumps_cons in Heq. by rewrite dumps_link in Heq.
  - rewrite !join_dumps_cons in Heq.
    apply dumps_link_inj in Heq as [-> Heq]. by rewrite (dumps_rest_inj _ _ Heq).
Qed.

End PayloadInjective.

(** ** The Link Extractor: titles and the order of the output *)

(** No character of [s] is white space. *)
Definition no_space (s : string) : bool :=
  all_chars (fun c => negb (PyStr.isspace c)) s.

(** A word: not empty, no white space. *)
Definition is_word (w : string) : Prop := w <> EmptyString /\ no_space w = true.

Section ExtractorMore.
Import NewsMonitor.
Variable env : Env.

Lemma append_empty_r (s : string) : s +:+ EmptyString = s.
Proof. induction s as [|c s IH]; [done|]. by rewrite append_cons, IH. Qed.

Lemma split_from_words (s : string) :
  no_space (PyStr.split_from s).1 = true /\ Forall is_word (PyStr.split_from s).2.
Proof.
  induction s as [|c s [IHw IHws]]; cbn [PyStr.split_from]; [by split|].
  destruct (PyStr.split_from s) as [w ws]. cbn [fst snd] in *.
  destruct (PyStr.isspace c) eqn:Hc; cbn [fst snd].
  - split; [done|]. destruct w as [|c' w]; [done|]. by constructor.
  - split; [|done]. unfold no_space in *. simpl. by rewrite Hc, IHw.
Qed.

Lemma split_words (s : string) : Forall is_word (PyStr.split s).
Proof.
  unfold PyStr.split. pose proof (split_from_words s) as [Hw Hws].
  destruct (PyStr.split_from s) as [w ws]. cbn [fst snd] in *.
  destruct w as [|c w]; [done|]. by constructor.
Qed.

Lemma split_from_word (w rest : string) :
  no_space w = true ->
  PyStr.split_from (w +:+ rest)
  = (w +:+ (PyStr.split_from rest).1, (PyStr.split_from rest).2).
Proof.
  induction w as [|c w IH]; intros Hw.
  - rewrite !append_empty_l. by destruct (PyStr.split_from rest).
  - unfold no_space in Hw. simpl in Hw. apply andb_true_iff in Hw as [Hc Hw].
    rewrite !append_cons. cbn [PyStr.split_from]. rewrite (IH Hw).
    apply negb_true_iff in Hc. by rewrite Hc.
Qed.

Lemma split_from_space (rest : string) :
  PyStr.split_from (" " +:+ rest) = (EmptyString, PyStr.split rest).
Proof.
  change (" " +:+ rest) with (String " " rest). cbn [PyStr.split_from].
  unfold PyStr.split. by destruct (PyStr.split_from rest) as [w ws].
Qed.

(** Splitting what was joined with single spaces gives the words back. *)
Lemma split_join (ws : list string) :
  Forall is_word ws -> PyStr.split (PyStr.join " " ws) = ws.
Proof.
  induction 1 as [|w ws [Hne Hw] Hws IH]; [done|].
  destruct ws as [|w' ws].
  - cbn [PyStr.join]. unfold PyStr.split.
    rewrite <- (append_empty_r w) at 1. rewrite (split_from_word w _ Hw).
    cbn [PyStr.split_from fst snd]. rewrite append_empty_r. by destruct w.
  - cbn [PyStr.join] in *. unfold PyStr.split at 1.
    rewrite (split_from_word w _ Hw), split_from_space. cbn [fst snd].
    rewrite append_empty_r, IH. by destruct w.
Qed.

(** Collapsing the white space of a text that was already collapsed
    changes nothing. *)
Theorem visible_text_idempotent (a : anchor) (reference : string) :
  visible_text {| get_text := visible_text a; href := reference |} = visible_text a.
Proof.
  unfold visible_text. cbn [get_text].
  by rewrite (split_join _ (split_words (get_text a))).
Qed.

Lemma elem_of_collect (company : Company) (anchors : list anchor) (item : link) :
  item ∈ collect_links env company anchors [] ->
  exists a, a ∈ anchors /\ anchor_link env company a = Some item.
Proof.
  rewrite collect_links_omap, app_nil_l, list_elem_of_omap.
  intros (a & Ha & Hitem). by exists a.
Qed.

Lemma elem_of_extract (company : Company) (page : string) (item : link) :
  item ∈ extract_links env company page ->
  exists a, a ∈ find_all env page /\ anchor_link env company a = Some item.
Proof.
  intros Hitem. apply elem_of_collect.
  apply (normalized_links_spec env company page).
  by eapply subseteq_take.
Qed.

(** The title of every link of the output is either its URL (the anchor
    had no text) or words separated by single spaces: no white space at
    either end, none but the space, no two in a row. *)
Theorem titles_are_collapsed (company : Company) (page : string) (item : link) :
  item ∈ extract_links env company page ->
  title item = url item \/
  exists ws, ws <> [] /\ Forall is_word ws /\ title item = PyStr.join " " ws.
Proof.
  intros (a & _ & Ha)%elem_of_extract. revert Ha. unfold anchor_link.
  destruct (negb _); [done|]. destruct (_ && _); [done|]. intros [= <-].
  cbn [title url]. unfold PyStr.or_else.
  destruct (PyStr.truthy _) eqn:Htext; [right|by left].
  exists (PyStr.split (get_text a)). split_and!; [|apply split_words|done].
  intros Hnil. by rewrite Hnil in Htext.
Qed.


End ExtractorMore.

(** ** The Orchestrator: whole runs *)

Section RunVocabulary.
Import NewsMonitor.
Variable env : Env.

(** The fetch of every company returns at its turn, the first company
    making the request number [n]: the request is answered with a status
    that [raise_for_status] takes, the parser takes the page and
    [urljoin] every reference of it. *)
Definition all_fetches_succeed (n : nat) (cs : list Company) : Prop :=
  forall i c, cs !! i = Some c -> returns (fetch_outcome env (n + i) c) = true.

(** The snapshot of a company whose page answers the request number [n]
    and whose check reads the clock for the [t]-th time. *)
Definition snapshot_of (n t : nat) (company : Company) : CompanySnapshot :=
  let links := extract_links env company (page_at env n company) in
  {| snap_name := name company; snap_ir_url := ir_url company;
     snap_digest := digest_links (map link_dict links); snap_links := links;
     snap_checked_at := isoformat env t |}.

(** The snapshots after a loop over [cs] in which every fetch succeeds. *)
Fixpoint expected_snapshots (n t : nat) (cs : list Company)
    (m : gmap string CompanySnapshot) : gmap string CompanySnapshot :=
  match cs with
  | [] => m
  | company :: rest =>
      expected_snapshots (S n) (S t) rest (<[ticker company := snapshot_of n t company]> m)
  end.

(** The state a run saves when every fetch succeeds. *)
Definition expected_state (w : World) (cs : list Company) : State :=
  {| companies := expected_snapshots (length (requests w)) (S (clock w)) cs ∅;
     updated_at := isoformat env (clock w) |}.

(** An environment variable that [required_env] refuses: not set, or
    set to the empty string. *)
Definition env_missing (var : string) : bool :=
  match getenv env var with
  | Some value => negb (PyStr.truthy value)
  | None => true
  end.

(** What [main] does with the change records once the state is saved. *)
Definition report_changes (args : Args) (changes : list ChangeRecord) : M Z :=
  match changes with
  | [] => print (Print "No changes detected.") ;; ret 0%Z
  | _ =>
      let* msg := build_email env changes in
      if dry_run args
      then
        print (Print ("Dry run mode: would send this email:" +:+ newline)) ;;
        print (PrintMessage msg) ;;
        ret 0%Z
      else
        send_email env msg ;;
        print (Print ("Sent email for " +:+ PyStr.of_nat (length changes)
                      +:+ " company update(s).")) ;;
        ret 0%Z
  end.

End RunVocabulary.

Section RunFacts.
Import NewsMonitor.
Variable env : Env.

Lemma fetch_links_clock (company : Company) (v : bool) (w : World) :
  clock (fetch_links env company v w).2 = clock w.
Proof.
  destruct (fetch_links_outcome env company v w) as (w' & -> & _ & Hclock & _). done.
Qed.

(** A turn of the loop after a successful fetch, in full. *)
Lemma process_company_after_fetch (args : Args) (prior_state : option State)
    (company : Company) (next_state : State) (changes : list ChangeRecord)
    (w w1 : World) (links : list link) :
  fetch_links env company (verbose args) w = (inr links, w1) ->
  process_company env args prior_state company (next_state, changes) w
  = (inr ({| companies :=
               <[ticker company :=
                   {| snap_name := name company; snap_ir_url := ir_url company;
                      snap_digest := digest_links (map link_dict links);
                      snap_links := links;
                      snap_checked_at := isoformat env (clock w1) |}]>
                 (companies next_state);
             updated_at := updated_at next_state |},
          changes ++ if decide (notifies args prior_state company links)
                     then [change_of prior_state company links] else []),
     (now w1).2).
Proof.
  intros Hfetch. unfold process_company, bind. rewrite Hfetch.
  unfold ret. cbn [now fst snd]. cbv zeta.
  set (previous := prior_companies prior_state !! ticker company).
  set (cond := _ || _).
  assert (cond = true <-> notifies args prior_state company links) as Hcond.
  { unfold cond, notifies. fold previous.
    destruct previous as [snap|]; simpl.
    - rewrite orb_false_r, negb_true_iff, String.eqb_neq. split.
      + intros Hne. left. by exists snap.
      + intros [(s & [= <-] & Hne)|[? _]]; done.
    - split; [by right|]. intros [(s & ? & _)|[_ ?]]; done. }
  assert (from_option snap_links [] previous = prior_links prior_state company) as ->.
  { unfold prior_links. fold previous. by destruct previous. }
  rewrite (surjective_pairing (build_change_report _ _)).
  fold (change_of prior_state company links).
  destruct (decide (notifies args prior_state company links)) as [Hn|Hn].
  - apply Hcond in Hn as ->. done.
  - destruct cond; [destruct Hn; by apply Hcond|]. by rewrite app_nil_r.
Qed.

Lemma process_company_ok (args : Args) (prior_state : option State) (company : Company)
    (next_state : State) (changes : list ChangeRecord) (w : World) :
  returns (fetch_outcome env (length (requests w)) company) = true ->
  let links := extract_links env company (page_at env (length (requests w)) company) in
  exists w',
    process_company env args prior_state company (next_state, changes) w
    = (inr ({| companies :=
                 <[ticker company := snapshot_of env (length (requests w)) (clock w) company]>
                   (companies next_state);
               updated_at := updated_at next_state |},
            changes ++ if decide (notifies args prior_state company links)
                       then [change_of prior_state company links] else []), w') /\
    requests w' = requests w ++ [ir_url company] /\
    clock w' = S (clock w) /\ frame w w'.
Proof.
  intros Hok links. unfold links, snapshot_of. clear links.
  destruct (fetch_links_succeeds env company (verbose args) w Hok)
    as (w1 & Hfetch & Hreq & Hclock & Hframe).
  exists (now w1).2. rewrite (process_company_after_fetch _ _ _ _ _ _ _ _ Hfetch), Hclock.
  split; [done|]. cbn [now snd requests clock]. by rewrite Hclock.
Qed.

(** A loop in which every fetch returns, returns: the snapshots and the
    change records it has built, the requests it has made. *)
Lemma main_loop_ok (args : Args) (prior_state : option State) (cs : list Company)
    (next_state : State) (changes : list ChangeRecord) (w : World) :
  all_fetches_succeed env (length (requests w)) cs ->
  exists w',
    main_loop env args prior_state cs (next_state, changes) w
    = (inr ({| companies :=
                 expected_snapshots env (length (requests w)) (clock w) cs
                   (companies next_state);
               updated_at := updated_at next_state |},
            changes ++ expected_changes env args prior_state (length (requests w)) cs), w') /\
    requests w' = requests w ++ (ir_url <$> cs) /\
    clock w' = (clock w + length cs)%nat /\ frame w w'.
Proof.
  revert next_state changes w.
  induction cs as [|c cs IH]; intros next_state changes w Hok;
    cbn [main_loop expected_snapshots expected_changes].
  - exists w. unfold ret. rewrite !app_nil_r, Nat.add_0_r.
    split; [by destruct next_state|]. by repeat split.
  - assert (returns (fetch_outcome env (length (requests w)) c) = true) as Hc.
    { rewrite <- (Nat.add_0_r (length (requests w))). by apply (Hok 0%nat). }
    destruct (process_company_ok args prior_state c next_state changes w Hc)
      as (w1 & Hstep & Hreq & Hclock & Hframe).
    unfold bind. rewrite Hstep.
    match type of Hstep with
    | _ = (inr (?ns1, ?ch1), _) =>
        destruct (IH ns1 ch1 w1) as (w' & Hloop & Hreq' & Hclock' & Hframe')
    end.
    { intros i c' Hc'. rewrite Hreq, length_app. simpl length.
      replace (length (requests w) + 1 + i)%nat with (length (requests w) + S i)%nat by lia.
      by apply Hok. }
    exists w'. rewrite Hloop. cbn [companies updated_at].
    rewrite Hreq, length_app, Hclock. simpl length. rewrite Nat.add_1_r.
    split_and!.
    + f_equal. f_equal. rewrite <- app_assoc. f_equal.
      apply fetch_outcome_returns in Hc as [_ Hc].
      revert Hc. unfold fetch_fails, page_at.
      destruct (http_get env _ _) as [|status_code page]; [done|]. done.
    + rewrite Hreq', Hreq, <- app_assoc. done.
    + rewrite Hclock', Hclock. simpl. lia.
    + by eapply frame_trans.
Qed.

(** [main] once the loop has returned: the state is saved, then the
    changes are reported. *)
Lemma main_after_loop (args : Args) (w w1 : World) (cs : list Company)
    (next_state : State) (changes : list ChangeRecord) :
  config_file w = Some cs -> cs <> [] ->
  main_loop env args (state_file w) cs
    ({| companies := ∅; updated_at := isoformat env (clock w) |}, []) (now w).2
  = (inr (next_state, changes), w1) ->
  main env args w = report_changes env args changes (with_state_file next_state w1).
Proof.
  intros Hcfg Hcs Hloop. unfold main, bind, load_companies, load_state. rewrite Hcfg.
  destruct cs as [|c cs]; [done|].
  cbn [now fst snd] in *. rewrite Hloop. unfold save_state, report_changes, bind.
  by destruct changes.
Qed.

Lemma main_ok (args : Args) (w : World) (cs : list Company) :
  config_file w = Some cs -> cs <> [] ->
  all_fetches_succeed env (length (requests w)) cs ->
  exists w1,
    main env args w
    = report_changes env args
        (expected_changes env args (state_file w) (length (requests w)) cs) w1 /\
    state_file w1 = Some (expected_state env w cs) /\
    requests w1 = requests w ++ (ir_url <$> cs) /\
    outbox w1 = outbox w /\ config_file w1 = config_file w.
Proof.
  intros Hcfg Hcs Hok.
  destruct (main_loop_ok args (state_file w) cs
              {| companies := ∅; updated_at := isoformat env (clock w) |} [] (now w).2)
    as (w' & Hloop & Hreq & _ & (_ & Hconfig & Hout)); [done|].
  eexists. split; [by eapply main_after_loop|]. by split_and!.
Qed.

(** Reporting leaves the files and the requests alone. *)
Lemma report_changes_files (args : Args) (changes : list ChangeRecord) (w : World) :
  state_file (report_changes env args changes w).2 = state_file w /\
  config_file (report_changes env args changes w).2 = config_file w /\
  requests (report_changes env args changes w).2 = requests w.
Proof.
  unfold report_changes, build_email, send_email, required_env, bind, print, ret, raise, now.
  destruct changes as [|c changes]; [done|].
  destruct (getenv env "GMAIL_USERNAME") as [u|]; [|done].
  destruct (PyStr.truthy u); [|done].
  destruct (header_refused env u); [done|].
  destruct (header_refused env _); [done|].
  destruct (dry_run args); [done|].
  destruct (getenv env "GMAIL_APP_PASSWORD") as [p|]; [|done].
  destruct (PyStr.truthy p); [|done].
  by destruct (smtp_accepts env _).
Qed.

(** Reporting ends with the code 0 or raises an exception that is not one
    of [requests]. *)
Lemma report_changes_result (args : Args) (changes : list ChangeRecord) (w : World) :
  (report_changes env args changes w).1 = inr 0%Z \/
  exists e, (report_changes env args changes w).1 = inl e /\ e <> RequestException.
Proof.
  unfold report_changes, build_email, send_email, required_env, bind, print, ret, raise, now.
  destruct changes as [|c changes]; [by left|].
  destruct (getenv env "GMAIL_USERNAME") as [u|]; [|right; by eexists].
  destruct (PyStr.truthy u); [|right; by eexists].
  destruct (header_refused env u); [right; by eexists|].
  destruct (header_refused env _); [right; by eexists|].
  destruct (dry_run args); [by left|].
  destruct (getenv env "GMAIL_APP_PASSWORD") as [p|]; [|right; by eexists].
  destruct (PyStr.truthy p); [|right; by eexists].
  destruct (smtp_accepts env _); [by left|right; by eexists].
Qed.

Lemma report_changes_dry (args : Args) (changes : list ChangeRecord) (w : World) :
  dry_run args = true -> outbox (report_changes env args changes w).2 = outbox w.
Proof.
  intros Hdry.
  unfold report_changes, build_email, required_env, bind, print, ret, raise, now.
  rewrite Hdry. destruct changes as [|c changes]; [done|].
  destruct (getenv env "GMAIL_USERNAME") as [u|]; [|done].
  destruct (PyStr.truthy u); [|done].
  destruct (header_refused env u); [done|].
  by destruct (header_refused env _).
Qed.

Lemma report_changes_none (args : Args) (w : World) :
  (report_changes env args [] w).1 = inr 0%Z /\
  outbox (report_changes env args [] w).2 = outbox w /\
  last (stdout (report_changes env args [] w).2) = Some (Print "No changes detected.").
Proof.
  unfold report_changes, bind, print, ret. cbn [fst snd stdout outbox].
  split_and!; [done..|]. by rewrite last_snoc.
Qed.

Lemma report_changes_no_sender (args : Args) (changes : list ChangeRecord) (w : World) :
  changes <> [] -> env_missing env "GMAIL_USERNAME" = true ->
  (report_changes env args changes w).1 = inl (RuntimeError "GMAIL_USERNAME") /\
  outbox (report_changes env args changes w).2 = outbox w.
Proof.
  intros Hne. unfold env_missing.
  unfold report_changes, build_email, required_env, bind, print, ret, raise, now.
  destruct changes as [|c changes]; [done|].
  destruct (getenv env "GMAIL_USERNAME") as [u|]; [|done].
  by destruct (PyStr.truthy u).
Qed.

Lemma report_changes_sent (args : Args) (changes : list ChangeRecord) (w : World)
    (user password : string) :
  changes <> [] -> dry_run args = false ->
  getenv env "GMAIL_USERNAME" = Some user -> user <> EmptyString ->
  getenv env "GMAIL_APP_PASSWORD" = Some password -> password <> EmptyString ->
  header_refused env user = false ->
  header_refused env (default (header_text env user) (getenv env "NOTIFY_TO")) = false ->
  (forall msg, smtp_accepts env msg = true) ->
  (report_changes env args changes w).1 = inr 0%Z /\
  exists msg,
    outbox (report_changes env args changes w).2 = outbox w ++ [msg] /\
    Subject msg = subject_line changes /\ From msg = user /\
    To msg = default (header_text env user) (getenv env "NOTIFY_TO").
Proof.
  intros Hne Hdry Huser Hu Hpass Hp Hfrom Hto Hsmtp.
  unfold report_changes, build_email, send_email, required_env, bind, print, ret, raise, now.
  destruct changes as [|c changes]; [done|].
  rewrite Huser, Hpass, Hdry. destruct user; [done|]. destruct password; [done|].
  cbn [PyStr.truthy]. rewrite Hfrom, Hto, Hsmtp. cbn [fst snd outbox with_mail].
  split; [done|]. eexists. by split_and!.
Qed.

(** The server refuses the message, if the message is built at all: the
    report raises, and nothing is sent. *)
Lemma report_changes_refused (args : Args) (changes : list ChangeRecord) (w : World)
    (user password : string) :
  changes <> [] -> dry_run args = false ->
  getenv env "GMAIL_USERNAME" = Some user -> user <> EmptyString ->
  getenv env "GMAIL_APP_PASSWORD" = Some password -> password <> EmptyString ->
  (forall msg, smtp_accepts env msg = false) ->
  (exists e, (report_changes env args changes w).1 = inl e /\ e <> RequestException) /\
  outbox (report_changes env args changes w).2 = outbox w.
Proof.
  intros Hne Hdry Huser Hu Hpass Hp Hsmtp.
  unfold report_changes, build_email, send_email, required_env, bind, print, ret, raise, now.
  destruct changes as [|c changes]; [done|].
  rewrite Huser, Hpass, Hdry. destruct user as [|a user]; [done|].
  destruct password; [done|]. cbn [PyStr.truthy].
  destruct (header_refused env (String a user)); [split; [by eexists|done]|].
  destruct (header_refused env _); [split; [by eexists|done]|].
  cbn [PyStr.truthy]. rewrite Hsmtp. split; [by eexists|done].
Qed.

Lemma expected_changes_first_run (args : Args) (n : nat) (cs : list Company) :
  notify_on_first_run args = false -> expected_changes env args None n cs = [].
Proof.
  intros Hflag. revert n. induction cs as [|c cs IH]; intros n; cbn [expected_changes]; [done|].
  destruct (http_get env n (ir_url c)); [done|]. rewrite IH, app_nil_r.
  destruct (decide _) as [[(snap & Hsnap & _)|[_ Hn]]|_]; [|congruence|done].
  cbn [prior_companies] in Hsnap. by rewrite lookup_empty in Hsnap.
Qed.

Lemma dom_expected_snapshots (n t : nat) (cs : list Company)
    (m : gmap string CompanySnapshot) :
  dom (expected_snapshots env n t cs m) = dom m ∪ list_to_set (ticker <$> cs).
Proof.
  revert n t m. induction cs as [|c cs IH]; intros n t m; cbn [expected_snapshots].
  - by rewrite fmap_nil, list_to_set_nil, (right_id_L ∅ (∪)).
  - rewrite IH, dom_insert_L, fmap_cons, list_to_set_cons.
    by rewrite (comm_L (∪) {[ticker c]} (dom m)), <- (assoc_L (∪)).
Qed.

Lemma expected_snapshots_forall (P : string -> CompanySnapshot -> Prop) (n t : nat)
    (cs : list Company) (m : gmap string CompanySnapshot) :
  map_Forall P m ->
  (forall n t c, c ∈ cs -> P (ticker c) (snapshot_of env n t c)) ->
  map_Forall P (expected_snapshots env n t cs m).
Proof.
  revert n t m. induction cs as [|c cs IH]; intros n t m Hm HP; cbn [expected_snapshots]; [done|].
  apply IH.
  - apply map_Forall_insert_2; [|done]. apply HP. left.
  - intros n' t' c' Hc'. apply HP. by right.
Qed.

(** The run without a watchlist: the file is missing, or it lists no
    company.  The exit code is 1 and nothing has happened: no request,
    no state written, nothing printed or mailed. *)
Theorem run_without_watchlist (args : Args) (w : World) :
  config_file w = None \/ config_file w = Some [] ->
  run env args w = (1%Z, w).
Proof.
  unfold run, main, bind, load_companies. by intros [-> | ->].
Qed.

(** A first run without the flag: every page is fetched, the state is
    saved, no mail is sent, the run says that nothing changed and ends
    with the code 0. *)
Theorem first_run_is_silent (args : Args) (w : World) (cs : list Company) :
  config_file w = Some cs -> cs <> [] ->
  all_fetches_succeed env (length (requests w)) cs ->
  state_file w = None -> notify_on_first_run args = false ->
  (run env args w).1 = 0%Z /\
  state_file (run env args w).2 = Some (expected_state env w cs) /\
  requests (run env args w).2 = requests w ++ (ir_url <$> cs) /\
  outbox (run env args w).2 = outbox w /\
  last (stdout (run env args w).2) = Some (Print "No changes detected.").
Proof.
  intros Hcfg Hcs Hok Hstate Hflag.
  destruct (main_ok args w cs Hcfg Hcs Hok) as (w1 & Hmain & Hsaved & Hreq & Hout & _).
  rewrite Hstate, expected_changes_first_run in Hmain by done.
  unfold run. rewrite Hmain.
  destruct (report_changes_none args w1) as (Hcode & Hout' & Hlast).
  destruct (report_changes_files args [] w1) as (Hst & _ & Hreq').
  destruct (report_changes env args [] w1) as [[e|code] w2]; cbn [fst snd] in *; [done|].
  injection Hcode as ->. cbn [fst snd]. split_and!; congruence.
Qed.

(** Whenever every fetch succeeds, whatever happens to the report, the
    state that is saved holds one snapshot for each ticker of the
    watchlist and no other (the tickers of the previous state are not
    kept), and every snapshot holds at most fifty links and the digest of
    these links. *)
Theorem saved_state_covers_watchlist (args : Args) (w : World) (cs : list Company) :
  config_file w = Some cs -> cs <> [] ->
  all_fetches_succeed env (length (requests w)) cs ->
  exists st,
    state_file (run env args w).2 = Some st /\
    dom (companies st) = list_to_set (ticker <$> cs) /\
    map_Forall (fun _ snap =>
                  snap_digest snap = digest_links (map link_dict (snap_links snap)) /\
                  (length (snap_links snap) <= 50)%nat) (companies st).
Proof.
  intros Hcfg Hcs Hok.
  destruct (main_ok args w cs Hcfg Hcs Hok) as (w1 & Hmain & Hsaved & _).
  exists (expected_state env w cs). split_and!.
  - unfold run. rewrite Hmain.
    destruct (report_changes_files args
                (expected_changes env args (state_file w) (length (requests w)) cs) w1)
      as (Hst & _).
    destruct (report_changes env args _ w1) as [[[]|code] w2]; cbn [fst snd] in *; congruence.
  - unfold expected_state. cbn [companies].
    by rewrite dom_expected_snapshots, dom_empty_L, (left_id_L ∅ (∪)).
  - unfold expected_state. cbn [companies]. apply expected_snapshots_forall.
    + apply map_Forall_empty.
    + intros n t c _. unfold snapshot_of. cbn [snap_digest snap_links]. split; [done|].
      unfold extract_links. rewrite length_take. unfold MAX_LINKS_PER_COMPANY. lia.
Qed.

(** The loop, however it ends: it leaves the files and the mail alone
    and requests the pages of the first companies, in order. *)
Lemma main_loop_any (args : Args) (prior_state : option State) (cs : list Company)
    (acc : State * list ChangeRecord) (w : World) :
  frame w (main_loop env args prior_state cs acc w).2 /\
  exists k, requests (main_loop env args prior_state cs acc w).2
            = requests w ++ (ir_url <$> take k cs).
Proof.
  revert acc w. induction cs as [|c cs IH]; intros acc w; cbn [main_loop].
  - split; [apply frame_refl|]. exists 0%nat. by rewrite app_nil_r.
  - unfold bind.
    destruct (fetch_outcome env (length (requests w)) c) as [e|links] eqn:Hc.
    + destruct (process_company_raises env args prior_state c acc w _ Hc)
        as (w1 & -> & Hreq & Hframe). cbn [snd].
      split; [done|]. by exists 1%nat.
    + destruct (process_company_succeeds env args prior_state c acc w)
        as (acc' & w1 & -> & Hreq & Hframe); [by rewrite Hc|].
      destruct (IH acc' w1) as (Hframe' & k & Hreq').
      split; [by eapply frame_trans|].
      exists (S k). rewrite Hreq', Hreq, <- app_assoc. done.
Qed.

(** The loop raises nothing but the exception of the first fetch that
    raises. *)
Lemma main_loop_error (args : Args) (prior_state : option State) (cs : list Company)
    (acc : State * list ChangeRecord) (w w' : World) (e : exn) :
  main_loop env args prior_state cs acc w = (inl e, w') ->
  exists i c, cs !! i = Some c /\
    fetch_outcome env (length (requests w) + i) c = inl e /\
    forall j c', (j < i)%nat -> cs !! j = Some c' ->
      returns (fetch_outcome env (length (requests w) + j) c') = true.
Proof.
  revert acc w. induction cs as [|c cs IH]; intros acc w; cbn [main_loop]; [done|].
  unfold bind.
  destruct (fetch_outcome env (length (requests w)) c) as [e0|links] eqn:Hc.
  - destruct (process_company_raises env args prior_state c acc w _ Hc)
      as (w1 & -> & _). intros [= <- _].
    exists 0%nat, c. rewrite Nat.add_0_r. split_and!; [done..|]. intros; lia.
  - destruct (process_company_succeeds env args prior_state c acc w)
      as (acc' & w1 & -> & Hreq & _); [by rewrite Hc|].
    assert (forall k, (length (requests w1) + k = length (requests w) + S k)%nat) as Hshift.
    { intros k. rewrite Hreq, length_app. simpl. lia. }
    intros (i & c' & Hc' & Hraise & Hbefore)%IH.
    exists (S i), c'. split; [done|]. rewrite <- Hshift. split; [done|].
    intros [|j] c'' Hj Hc''.
    + injection Hc'' as <-. by rewrite Nat.add_0_r, Hc.
    + rewrite <- Hshift. apply Hbefore; [lia|done].
Qed.

(** The three ways of [main]: no watchlist, a loop that raises, a loop
    that returns. *)
Lemma main_cases (args : Args) (w : World) :
  ((config_file w = None \/ config_file w = Some []) /\
   exists e, main env args w = (inl e, w) /\ e <> RequestException) \/
  (exists cs e w1, config_file w = Some cs /\ cs <> [] /\
     main_loop env args (state_file w) cs
       ({| companies := ∅; updated_at := isoformat env (clock w) |}, []) (now w).2
     = (inl e, w1) /\
     main env args w = (inl e, w1)) \/
  (exists cs next_state changes w1, config_file w = Some cs /\ cs <> [] /\
     main_loop env args (state_file w) cs
       ({| companies := ∅; updated_at := isoformat env (clock w) |}, []) (now w).2
     = (inr (next_state, changes), w1) /\
     main env args w = report_changes env args changes (with_state_file next_state w1)).
Proof.
  destruct (config_file w) as [[|c cs]|] eqn:Hcfg.
  - left. split; [by right|]. exists ValueError.
    unfold main, bind, load_companies. by rewrite Hcfg.
  - right.
    destruct (main_loop env args (state_file w) (c :: cs)
                ({| companies := ∅; updated_at := isoformat env (clock w) |}, []) (now w).2)
      as [[e|[next_state changes]] w1] eqn:Hloop.
    + left. exists (c :: cs), e, w1. split_and!; [done..|].
      unfold main, bind, load_companies, load_state. rewrite Hcfg.
      cbn [now fst snd] in *. by rewrite Hloop.
    + right. exists (c :: cs), next_state, changes, w1. split_and!; [done..|].
      by apply (main_after_loop args w w1 (c :: cs)).
  - left. split; [by left|]. exists FileNotFoundError.
    unfold main, bind, load_companies. by rewrite Hcfg.
Qed.

(** With the dry-run flag no mail is sent, whatever the watchlist, the
    network and the environment. *)
Theorem dry_run_sends_nothing (args : Args) (w : World) :
  dry_run args = true -> outbox (run env args w).2 = outbox w.
Proof.
  intros Hdry. unfold run.
  destruct (main_cases args w)
    as [[_ (e & -> & _)]|[(cs & e & w1 & _ & _ & Hloop & ->)
                         |(cs & ns & ch & w1 & _ & _ & Hloop & ->)]].
  - by destruct e.
  - pose proof (main_loop_any args (state_file w) cs
                  ({| companies := ∅; updated_at := isoformat env (clock w) |}, [])
                  (now w).2) as [(_ & _ & Hout) _].
    rewrite Hloop in Hout. cbn [snd now outbox] in Hout. by destruct e.
  - pose proof (main_loop_any args (state_file w) cs
                  ({| companies := ∅; updated_at := isoformat env (clock w) |}, [])
                  (now w).2) as [(_ & _ & Hout) _].
    rewrite Hloop in Hout.
    pose proof (report_changes_dry args ch (with_state_file ns w1) Hdry) as Hdry'.
    destruct (report_changes env args ch _) as [[[]|code] w2];
      cbn [snd now outbox with_state_file] in *; congruence.
Qed.

(** A run calls [requests.get] with the URLs of the watchlist and no
    other, in the order of the watchlist, once for a company at most, and
    it never changes the watchlist.  (The exchanges that the library
    makes to serve a call, such as the redirects it follows, are not
    calls of the script.) *)
Theorem requests_follow_watchlist (args : Args) (w : World) :
  config_file (run env args w).2 = config_file w /\
  exists k, requests (run env args w).2
            = requests w ++ (ir_url <$> take k (default [] (config_file w))).
Proof.
  unfold run.
  destruct (main_cases args w)
    as [[_ (e & -> & _)]|[(cs & e & w1 & Hcfg & _ & Hloop & ->)
                         |(cs & ns & ch & w1 & Hcfg & _ & Hloop & ->)]].
  - split; [by destruct e|]. exists 0%nat. rewrite app_nil_r. by destruct e.
  - pose proof (main_loop_any args (state_file w) cs
                  ({| companies := ∅; updated_at := isoformat env (clock w) |}, [])
                  (now w).2) as [(_ & Hconfig & _) (k & Hreq)].
    rewrite Hloop in Hconfig, Hreq.
    cbn [snd now config_file requests] in Hconfig, Hreq.
    split; [by destruct e|]. exists k. rewrite Hcfg. destruct e; exact Hreq.
  - pose proof (main_loop_any args (state_file w) cs
                  ({| companies := ∅; updated_at := isoformat env (clock w) |}, [])
                  (now w).2) as [(_ & Hconfig & _) (k & Hreq)].
    rewrite Hloop in Hconfig, Hreq.
    destruct (report_changes_files args ch (with_state_file ns w1)) as (_ & Hconfig' & Hreq').
    destruct (report_changes env args ch _) as [[[]|code] w2];
      cbn [snd now config_file requests with_state_file] in *;
      (split; [congruence|exists k; rewrite Hcfg, Hreq'; exact Hreq]).
Qed.

(** Given the arguments and a watchlist, the exit code is 2 exactly when
    the first fetch that raises is one whose request fails: the fetches
    of the companies before it have returned. *)
Theorem exit_code_2_iff (args : Args) (w : World) (cs : list Company) :
  config_file w = Some cs ->
  (run env args w).1 = 2%Z <->
  exists i c, cs !! i = Some c /\
    fetch_fails env (length (requests w) + i) (ir_url c) = true /\
    forall j c', (j < i)%nat -> cs !! j = Some c' ->
      returns (fetch_outcome env (length (requests w) + j) c') = true.
Proof.
  intros Hcfg. unfold run. split.
  - destruct (main_cases args w)
      as [[_ (e & -> & He)]|[(cs' & e & w1 & Hcfg' & _ & Hloop & ->)
                            |(cs' & ns & ch & w1 & _ & _ & _ & ->)]].
    + by destruct e.
    + assert (cs' = cs) as -> by congruence.
      apply main_loop_error in Hloop as (i & c & Hc & Hraise & Hbefore).
      cbn [fst]. intros Hcode. exists i, c. split; [done|].
      cbn [now snd requests] in *. split; [|done].
      apply fetch_outcome_fails. rewrite Hraise. by destruct e.
    + destruct (report_changes_result args ch (with_state_file ns w1)) as [Hr|(e & Hr & He)];
        destruct (report_changes env args ch _) as [[e'|code] w2]; cbn [fst] in *;
        try done; [by injection Hr as ->|]. injection Hr as ->. by destruct e.
  - intros (i & c & Hc & Hfails & Hbefore).
    destruct cs as [|c0 cs']; [done|].
    destruct (main_loop_aborts env args (state_file w) (c0 :: cs')
                ({| companies := ∅; updated_at := isoformat env (clock w) |}, [])
                (now w).2 i c Hc Hfails) as (j & w' & _ & Hloop & _).
    { intros j c' e Hj Hc' He. cbn [now snd requests] in He.
      specialize (Hbefore j c' Hj Hc'). rewrite He in Hbefore. done. }
    unfold main, bind, load_companies, load_state. rewrite Hcfg.
    cbn [now fst snd] in *. by rewrite Hloop.
Qed.

(** The run after a loop that has returned: its exit code and what it
    leaves, read off the report. *)
Lemma run_ok (args : Args) (w : World) (cs : list Company) :
  config_file w = Some cs -> cs <> [] ->
  all_fetches_succeed env (length (requests w)) cs ->
  exists w1,
    let changes := expected_changes env args (state_file w) (length (requests w)) cs in
    outbox w1 = outbox w /\
    (run env args w).1
    = match (report_changes env args changes w1).1 with
      | inr code => code
      | inl RequestException => 2%Z
      | inl _ => 1%Z
      end /\
    (run env args w).2 = (report_changes env args changes w1).2 /\
    state_file (run env args w).2 = Some (expected_state env w cs) /\
    config_file (run env args w).2 = Some cs.
Proof.
  intros Hcfg Hcs Hok.
  destruct (main_ok args w cs Hcfg Hcs Hok) as (w1 & Hmain & Hsaved & _ & Hout & Hconfig).
  exists w1. cbv zeta. unfold run. rewrite Hmain.
  destruct (report_changes_files args
              (expected_changes env args (state_file w) (length (requests w)) cs) w1)
    as (Hst & Hconfig' & _).
  destruct (report_changes env args _ w1) as [[[]|code] w2]; cbn [fst snd] in *;
    split_and!; congruence.
Qed.

(** When there are changes to report and the sender is not configured, in
    a dry run as well, the run ends with the code 1 and sends nothing, and
    the new state is saved all the same. *)
Theorem missing_sender_after_state_saved (args : Args) (w : World) (cs : list Company) :
  config_file w = Some cs -> cs <> [] ->
  all_fetches_succeed env (length (requests w)) cs ->
  expected_changes env args (state_file w) (length (requests w)) cs <> [] ->
  env_missing env "GMAIL_USERNAME" = true ->
  (run env args w).1 = 1%Z /\
  state_file (run env args w).2 = Some (expected_state env w cs) /\
  outbox (run env args w).2 = outbox w.
Proof.
  intros Hcfg Hcs Hok Hchanges Hmissing.
  destruct (run_ok args w cs Hcfg Hcs Hok) as (w1 & Hout & Hcode & Hw & Hsaved & _).
  destruct (report_changes_no_sender args _ w1 Hchanges Hmissing) as [Hr Hout'].
  split_and!; [by rewrite Hcode, Hr|exact Hsaved|by rewrite Hw, Hout'].
Qed.

(** When there are changes to report, the credentials are set, the
    message takes the sender and the recipient as headers and the server
    accepts the message, exactly one message is sent: its subject counts
    the changes, its sender is the account as the script assigns it, and
    its recipient is [NOTIFY_TO] when that variable is set, the sender as
    the message gives it back otherwise. *)
Theorem report_is_mailed_once (args : Args) (w : World) (cs : list Company)
    (user password : string) :
  config_file w = Some cs -> cs <> [] ->
  all_fetches_succeed env (length (requests w)) cs ->
  expected_changes env args (state_file w) (length (requests w)) cs <> [] ->
  dry_run args = false ->
  getenv env "GMAIL_USERNAME" = Some user -> user <> EmptyString ->
  getenv env "GMAIL_APP_PASSWORD" = Some password -> password <> EmptyString ->
  header_refused env user = false ->
  header_refused env (default (header_text env user) (getenv env "NOTIFY_TO")) = false ->
  (forall msg, smtp_accepts env msg = true) ->
  (run env args w).1 = 0%Z /\
  exists msg,
    outbox (run env args w).2 = outbox w ++ [msg] /\
    Subject msg
    = subject_line (expected_changes env args (state_file w) (length (requests w)) cs) /\
    From msg = user /\
    To msg = default (header_text env user) (getenv env "NOTIFY_TO").
Proof.
  intros Hcfg Hcs Hok Hchanges Hdry Huser Hu Hpass Hp Hfrom Hto Hsmtp.
  destruct (run_ok args w cs Hcfg Hcs Hok) as (w1 & Hout & Hcode & Hw & _).
  destruct (report_changes_sent args _ w1 user password
              Hchanges Hdry Huser Hu Hpass Hp Hfrom Hto Hsmtp)
    as (Hr & msg & Hout' & Hmsg).
  split; [by rewrite Hcode, Hr|]. exists msg. split; [by rewrite Hw, Hout', Hout|done].
Qed.

(** When the server refuses the message, the run ends with the code 1,
    nothing is sent, and the new state is saved all the same. *)
Theorem refused_mail_after_state_saved (args : Args) (w : World) (cs : list Company)
    (user password : string) :
  config_file w = Some cs -> cs <> [] ->
  all_fetches_succeed env (length (requests w)) cs ->
  expected_changes env args (state_file w) (length (requests w)) cs <> [] ->
  dry_run args = false ->
  getenv env "GMAIL_USERNAME" = Some user -> user <> EmptyString ->
  getenv env "GMAIL_APP_PASSWORD" = Some password -> password <> EmptyString ->
  (forall msg, smtp_accepts env msg = false) ->
  (run env args w).1 = 1%Z /\
  state_file (run env args w).2 = Some (expected_state env w cs) /\
  outbox (run env args w).2 = outbox w.
Proof.
  intros Hcfg Hcs Hok Hchanges Hdry Huser Hu Hpass Hp Hsmtp.
  destruct (run_ok args w cs Hcfg Hcs Hok) as (w1 & Hout & Hcode & Hw & Hsaved & _).
  destruct (report_changes_refused args _ w1 user password
              Hchanges Hdry Huser Hu Hpass Hp Hsmtp) as ((e & Hr & He) & Hout').
  split_and!; [|exact Hsaved|by rewrite Hw, Hout'].
  rewrite Hcode, Hr. by destruct e.
Qed.

Lemma expected_snapshots_other (n t : nat) (cs : list Company)
    (m : gmap string CompanySnapshot) (k : string) :
  k ∉ ticker <$> cs -> expected_snapshots env n t cs m !! k = m !! k.
Proof.
  revert n t m. induction cs as [|c cs IH]; intros n t m Hk; cbn [expected_snapshots]; [done|].
  rewrite fmap_cons, not_elem_of_cons in Hk. destruct Hk as [Hne Hk].
  rewrite IH by done. by rewrite lookup_insert_ne.
Qed.

(** With distinct tickers, the snapshot under the ticker of a company is
    the snapshot of that company. *)
Lemma lookup_expected_snapshots (n t : nat) (cs : list Company)
    (m : gmap string CompanySnapshot) (c : Company) :
  NoDup (ticker <$> cs) -> c ∈ cs ->
  exists n' t', expected_snapshots env n t cs m !! ticker c = Some (snapshot_of env n' t' c).
Proof.
  revert n t m. induction cs as [|c0 cs IH]; intros n t m Hnd Hc; [by apply elem_of_nil in Hc|].
  rewrite fmap_cons in Hnd. apply NoDup_cons in Hnd as [Hc0 Hnd].
  cbn [expected_snapshots]. apply elem_of_cons in Hc as [->|Hc].
  - exists n, t. rewrite expected_snapshots_other by done. apply lookup_insert_eq.
  - by apply IH.
Qed.

(** No change is expected when the state holds, for every company, the
    digest of the links its page gives now. *)
Lemma expected_changes_unchanged (args : Args) (st : State) (n : nat) (cs : list Company) :
  (forall c n, c ∈ cs -> exists snap,
      companies st !! ticker c = Some snap /\
      snap_digest snap
      = digest_links (map link_dict (extract_links env c (page_at env n c)))) ->
  expected_changes env args (Some st) n cs = [].
Proof.
  revert n. induction cs as [|c cs IH]; intros n Hsnap; cbn [expected_changes]; [done|].
  destruct (Hsnap c n) as (snap & Hlookup & Hdigest); [left|].
  unfold page_at in Hdigest.
  destruct (http_get env n (ir_url c)) as [|status_code page]; [done|].
  rewrite IH, app_nil_r.
  - destruct (decide _) as [[(snap' & Hsnap' & Hne)|[Hnone _]]|_]; [| |done];
      cbn [prior_companies] in *; congruence.
  - intros c' n' Hc'. apply Hsnap. by right.
Qed.

(** With distinct tickers and a network whose answers do not depend on
    the time, a run that follows a run in which every fetch returned
    (the request was answered, the parser took the page and [urljoin]
    its references) finds no change: it sends nothing, says so, and ends
    with the code 0, whatever its flags. *)
Theorem second_run_is_silent (args args' : Args) (w : World) (cs : list Company) :
  config_file w = Some cs -> cs <> [] ->
  NoDup (ticker <$> cs) ->
  (forall n u, http_get env n u = http_get env 0 u) ->
  (forall c, c ∈ cs -> returns (fetch_outcome env 0 c) = true) ->
  let w1 := (run env args w).2 in
  (run env args' w1).1 = 0%Z /\
  outbox (run env args' w1).2 = outbox w1 /\
  last (stdout (run env args' w1).2) = Some (Print "No changes detected.").
Proof.
  intros Hcfg Hcs Hnd Hnet Hfetch w1.
  assert (forall n, all_fetches_succeed env n cs) as Hok.
  { intros n i c Hc. unfold fetch_outcome. rewrite Hnet.
    apply Hfetch. by eapply list_elem_of_lookup_2. }
  destruct (run_ok args w cs Hcfg Hcs (Hok _)) as (w0 & _ & _ & _ & Hsaved & Hconfig).
  fold w1 in Hsaved, Hconfig.
  destruct (run_ok args' w1 cs Hconfig Hcs (Hok _)) as (w2 & Hout & Hcode & Hw & _).
  assert (expected_changes env args' (state_file w1) (length (requests w1)) cs = [])
    as Hnone.
  { rewrite Hsaved. apply expected_changes_unchanged.
    intros c n Hc. unfold expected_state. cbn [companies].
    destruct (lookup_expected_snapshots (length (requests w)) (S (clock w)) cs ∅ c Hnd Hc)
      as (n' & t' & ->).
    eexists. split; [done|]. unfold snapshot_of. cbn [snap_digest].
    unfold page_at. by rewrite (Hnet n), (Hnet n'). }
  rewrite Hnone in Hcode, Hw.
  destruct (report_changes_none args' w2) as (Hr & Hout' & Hlast).
  split_and!; [by rewrite Hcode, Hr|by rewrite Hw, Hout', Hout|by rewrite Hw].
Qed.

End RunFacts.

(** ** The verbosity flag *)

Section VerboseFacts.
Import NewsMonitor.
Variable env : Env.

(** Two worlds that differ at most by what was printed. *)
Definition same_but_stdout (w w' : World) : Prop :=
  config_file w = config_file w' /\ state_file w = state_file w' /\
  requests w = requests w' /\ clock w = clock w' /\ outbox w = outbox w'.

(** Two computations that, from such worlds, end alike in such worlds. *)
Definition alike {A : Type} (m m' : M A) : Prop :=
  forall w w', same_but_stdout w w' ->
    (m w).1 = (m' w').1 /\ same_but_stdout (m w).2 (m' w').2.

Lemma alike_ret {A : Type} (a : A) : alike (ret a) (ret a).
Proof. by intros w w' Hw. Qed.

Lemma alike_bind {A B : Type} (m m' : M A) (k k' : A -> M B) :
  alike m m' -> (forall a, alike (k a) (k' a)) -> alike (bind m k) (bind m' k').
Proof.
  intros Hm Hk w w' Hw. unfold bind. destruct (Hm w w' Hw) as [Hr Hw'].
  destruct (m w) as [[e|a] w1], (m' w') as [[e'|a'] w1']; cbn [fst snd] in *;
    try discriminate.
  - injection Hr as ->. by split.
  - injection Hr as ->. by apply Hk.

Qed.

Lemma alike_print_or_not (o : output) : alike (print o) (ret tt) /\ alike (ret tt) (print o).
Proof. split; intros w w' Hw; by split. Qed.

Lemma alike_print (o : output) : alike (print o) (print o).
Proof. intros w w' Hw. by split. Qed.

Lemma alike_now : alike now now.
Proof.
  intros w w' (? & ? & ? & Hclock & ?). unfold now. cbn [fst snd].
  rewrite Hclock. split; [done|]. by repeat split; cbn; try congruence.
Qed.

Lemma alike_get_page (u : string) : alike (get_page env u) (get_page env u).
Proof.
  intros w w' (? & ? & Hreq & ? & ?). unfold get_page. rewrite Hreq.
  destruct (http_get env _ u) as [|status_code page].
  - split; [done|]. by repeat split; cbn; try congruence.
  - destruct (raise_for_status status_code);
      (split; [done|]); by repeat split; cbn; try congruence.
Qed.

Lemma alike_fetch_links (company : Company) (v v' : bool) :
  alike (fetch_links env company v) (fetch_links env company v').
Proof.
  unfold fetch_links. apply alike_bind; [apply alike_get_page|]. intros page.
  destruct (parser_rejects env page); [by intros w w' Hw|].
  destruct (scan_anchors env company (find_all env page) []) as [e|links];
    [by intros w w' Hw|].
  apply alike_bind; [|intros _; apply alike_ret].
  destruct v, v'; auto using alike_print, alike_ret;
    apply alike_print_or_not.
Qed.

Lemma alike_process_company (args args' : Args) (prior_state : option State)
    (company : Company) (acc : State * list ChangeRecord) :
  notify_on_first_run args = notify_on_first_run args' ->
  alike (process_company env args prior_state company acc)
        (process_company env args' prior_state company acc).
Proof.
  intros Hflag. destruct acc as [next_state changes]. unfold process_company.
  apply alike_bind; [apply alike_fetch_links|]. intros links.
  apply alike_bind; [apply alike_now|]. intros t. rewrite Hflag.
  destruct (_ || _); [|apply alike_ret].
  destruct (build_change_report _ _). apply alike_ret.
Qed.

Lemma alike_main_loop (args args' : Args) (prior_state : option State)
    (cs : list Company) (acc : State * list ChangeRecord) :
  notify_on_first_run args = notify_on_first_run args' ->
  alike (main_loop env args prior_state cs acc) (main_loop env args' prior_state cs acc).
Proof.
  intros Hflag. revert acc. induction cs as [|c cs IH]; intros acc; cbn [main_loop].
  - apply alike_ret.
  - apply alike_bind; [by apply alike_process_company|]. intros acc'. apply IH.
Qed.

Lemma alike_required_env (var : string) : alike (required_env env var) (required_env env var).
Proof.
  unfold required_env. destruct (getenv env var) as [value|]; [|by intros w w' Hw].
  destruct (PyStr.truthy value); by intros w w' Hw.
Qed.

Lemma alike_main (args args' : Args) :
  notify_on_first_run args = notify_on_first_run args' ->
  dry_run args = dry_run args' ->
  alike (main env args) (main env args').
Proof.
  intros Hflag Hdry. unfold main.
  apply alike_bind.
  { intros w w' Hw. unfold load_companies. rewrite (proj1 Hw).
    by destruct (config_file w') as [[|c cs]|] eqn:Hcfg. }
  intros cs. apply alike_bind.
  { intros w w' Hw. unfold load_state. split; [|done]. cbn [fst]. f_equal. apply Hw. }
  intros prior_state. apply alike_bind; [apply alike_now|]. intros t.
  apply alike_bind; [by apply alike_main_loop|]. intros [next_state changes].
  apply alike_bind.
  { intros w w' (? & ? & ? & ? & ?). unfold save_state. split; [done|].
    by repeat split; cbn; try congruence. }
  intros _. destruct changes as [|c changes].
  { apply alike_bind; [apply alike_print|]. intros _. apply alike_ret. }
  apply alike_bind.
  { unfold build_email. apply alike_bind; [apply alike_now|]. intros t'.
    apply alike_bind; [apply alike_required_env|]. intros sender.
    destruct (header_refused env sender); [by intros w w' Hw|].
    destruct (header_refused env _); [by intros w w' Hw|]. apply alike_ret. }
  intros msg. rewrite Hdry. destruct (dry_run args').
  - apply alike_bind; [apply alike_print|]. intros _.
    apply alike_bind; [apply alike_print|]. intros _. apply alike_ret.
  - apply alike_bind.
    { unfold send_email. apply alike_bind; [apply alike_required_env|]. intros u.
      apply alike_bind; [apply alike_required_env|]. intros p.
      intros w w' (? & ? & ? & ? & Hout). destruct (smtp_accepts env msg); [|by split].
      split; [done|]. by repeat split; cbn; try congruence. }
    intros _. apply alike_bind; [apply alike_print|]. intros _. apply alike_ret.
Qed.

(** The verbosity flag changes what is printed and nothing else: the
    exit code, the files, the requests, the clock readings and the mail
    sent are those of the run without the flag. *)
Theorem verbose_only_prints (args : Args) (w : World) :
  let quiet := {| notify_on_first_run := notify_on_first_run args;
                  dry_run := dry_run args; verbose := false |} in
  (run env args w).1 = (run env quiet w).1 /\
  same_but_stdout (run env args w).2 (run env quiet w).2.
Proof.
  intros quiet.
  destruct (alike_main args quiet eq_refl eq_refl w w) as [Hr Hw]; [done|].
  unfold run.
  destruct (main env args w) as [[e|code] w1], (main env quiet w) as [[e'|code'] w1'];
    cbn [fst snd] in *; try done.
  - injection Hr as ->. by destruct e'.
  - by injection Hr as ->.
Qed.

End VerboseFacts.

(** ** Further concrete runs *)

Module MoreSamples.
Import NewsMonitor Sample.

(** No environment variable is set. *)
Definition env_no_sender : Env :=
  {| http_get := http_get env_ok; find_all := find_all env_ok;
     parser_rejects := parser_rejects env_ok;
     urljoin_raises := urljoin_raises env_ok; urljoin := urljoin env_ok;
     header_refused := header_refused env_ok; header_text := header_text env_ok;
     isoformat := isoformat env_ok;
     strftime := strftime env_ok; getenv := fun _ => None;
     smtp_accepts := smtp_accepts env_ok |}.

Definition getenv_mail (var : string) : option string :=
  if String.eqb var "GMAIL_USERNAME" then Some "me@acme.test"
  else if String.eqb var "GMAIL_APP_PASSWORD" then Some "secret"
  else if String.eqb var "NOTIFY_TO" then Some "desk@acme.test"
  else None.

(** The account, its password and a recipient are set; the server takes
    every message, or none. *)
Definition env_mail (accepts : bool) : Env :=
  {| http_get := http_get env_ok; find_all := find_all env_ok;
     parser_rejects := parser_rejects env_ok;
     urljoin_raises := urljoin_raises env_ok; urljoin := urljoin env_ok;
     header_refused := header_refused env_ok; header_text := header_text env_ok;
     isoformat := isoformat env_ok;
     strftime := strftime env_ok; getenv := getenv_mail;
     smtp_accepts := fun _ => accepts |}.


(** Two anchors whose titles differ by the case of one letter. *)
Definition env_tied : Env :=
  {| http_get := http_get env_ok;
     find_all := fun page =>
       let pair := [ {| get_text := "News"; href := "https://beta.test/n" |};
                     {| get_text := "news"; href := "https://beta.test/n" |} ] in
       if String.eqb page "reversed" then rev pair else pair;
     parser_rejects := parser_rejects env_ok;
     urljoin_raises := urljoin_raises env_ok; urljoin := urljoin env_ok;
     header_refused := header_refused env_ok; header_text := header_text env_ok;
     isoformat := isoformat env_ok;
     strftime := strftime env_ok; getenv := getenv env_ok;
     smtp_accepts := smtp_accepts env_ok |}.

Definition args_send : Args :=
  {| notify_on_first_run := true; dry_run := false; verbose := true |}.

Definition args_quiet : Args :=
  {| notify_on_first_run := false; dry_run := false; verbose := false |}.

Definition world_no_config : World :=
  {| config_file := None; state_file := None;
     requests := []; clock := 0; stdout := []; outbox := [] |}.

End MoreSamples.

Section MoreWitnesses.
Import NewsMonitor Sample MoreSamples.

(** Where two links differ only by the case of their letters, the order
    of the page shows in the output. *)
Example order_of_ties :
  extract_links env_tied beta "page" <> extract_links env_tied beta "reversed".
Proof. vm_compute. discriminate. Qed.

Lemma payload_determines_links_witness :
  Json.dumps (map link_dict [press_a; press_b]) = Json.dumps (map link_dict [press_a; press_b]) /\
  [press_a; press_b] = [press_a; press_b].
Proof.
  split; [reflexivity|].
  apply (payload_determines_links [press_a; press_b] [press_a; press_b]). reflexivity.
Defined.

Lemma titles_are_collapsed_witness :
  let item := {| title := "Q3 Dividend Announcement"; url := "https://acme.test/q3" |} in
  item ∈ extract_links env_ok acme "<html>" /\
  (title item = url item \/
   exists ws, ws <> [] /\ Forall is_word ws /\ title item = PyStr.join " " ws).
Proof.
  assert ({| title := "Q3 Dividend Announcement"; url := "https://acme.test/q3" |}
          ∈ extract_links env_ok acme "<html>") as Hitem.
  { rewrite extract_ex. right. left. }
  split; [exact Hitem|].
  exact (titles_are_collapsed env_ok acme "<html>" _ Hitem).
Defined.

(** Every fetch of a watchlist of two companies returns. *)
Local Ltac fetches_return :=
  let i := fresh "i" in
  let c := fresh "c" in
  let Hc := fresh "Hc" in
  intros i c Hc; destruct i as [|[|i]];
  [injection Hc as <-; vm_compute; reflexivity..|discriminate Hc].


Lemma run_without_watchlist_witness :
  config_file world_no_config = None /\
  run env_ok args world_no_config = (1%Z, world_no_config).
Proof.
  split; [reflexivity|]. apply run_without_watchlist. left. reflexivity.
Defined.

Lemma first_run_is_silent_witness :
  state_file world = None /\ notify_on_first_run args_quiet = false /\
  (run env_ok args_quiet world).1 = 0%Z /\
  requests (run env_ok args_quiet world).2 = [ir_url acme; ir_url beta] /\
  outbox (run env_ok args_quiet world).2 = [].
Proof.
  split; [reflexivity|]. split; [reflexivity|].
  destruct (first_run_is_silent env_ok args_quiet world [acme; beta])
    as (Hcode & _ & Hreq & Hout & _);
    [reflexivity|discriminate|fetches_return|reflexivity|reflexivity|].
  split_and!; [exact Hcode|exact Hreq|exact Hout].
Defined.

Lemma saved_state_covers_watchlist_witness :
  exists st,
    state_file (run env_ok args world).2 = Some st /\
    dom (companies st) = list_to_set (ticker <$> [acme; beta]) /\
    map_Forall (fun _ snap =>
                  snap_digest snap = digest_links (map link_dict (snap_links snap)) /\
                  (length (snap_links snap) <= 50)%nat) (companies st).
Proof.
  apply (saved_state_covers_watchlist env_ok args world [acme; beta]);
    [reflexivity|discriminate|fetches_return].
Defined.

Lemma dry_run_sends_nothing_witness :
  dry_run args = true /\ outbox (run env_ok args world).2 = outbox world.
Proof.
  split; [reflexivity|]. apply dry_run_sends_nothing. reflexivity.
Defined.

Lemma exit_code_2_iff_witness :
  ((run env_second_fails args world).1 = 2%Z <->
   exists i c, [acme; beta] !! i = Some c /\
     fetch_fails env_second_fails (length (requests world) + i) (ir_url c) = true /\
     forall j c', (j < i)%nat -> [acme; beta] !! j = Some c' ->
       returns (fetch_outcome env_second_fails (length (requests world) + j) c') = true) /\
  (run env_second_fails args world).1 = 2%Z /\
  (run env_bad_reference args world).1 = 1%Z.
Proof.
  split; [|split; reflexivity].
  apply (exit_code_2_iff env_second_fails args world [acme; beta]). reflexivity.
Defined.

Lemma missing_sender_witness :
  env_missing env_no_sender "GMAIL_USERNAME" = true /\
  dry_run args = true /\
  (run env_no_sender args world).1 = 1%Z /\
  state_file (run env_no_sender args world).2
  = Some (expected_state env_no_sender world [acme; beta]) /\
  outbox (run env_no_sender args world).2 = outbox world.
Proof.
  split; [reflexivity|]. split; [reflexivity|].
  apply (missing_sender_after_state_saved env_no_sender args world [acme; beta]);
    [reflexivity|discriminate|fetches_return
    |vm_compute; discriminate|reflexivity].
Defined.

Lemma report_is_mailed_once_witness :
  (run (env_mail true) args_send world).1 = 0%Z /\
  exists msg,
    outbox (run (env_mail true) args_send world).2 = outbox world ++ [msg] /\
    Subject msg
    = subject_line (expected_changes (env_mail true) args_send (state_file world)
                      (length (requests world)) [acme; beta]) /\
    From msg = "me@acme.test" /\
    To msg = "desk@acme.test".
Proof.
  apply (report_is_mailed_once (env_mail true) args_send world [acme; beta]
           "me@acme.test" "secret");
    [reflexivity|discriminate|fetches_return|vm_compute; discriminate
    |reflexivity|reflexivity|discriminate|reflexivity|discriminate
    |reflexivity|reflexivity|reflexivity].
Defined.

Lemma refused_mail_witness :
  (run (env_mail false) args_send world).1 = 1%Z /\
  state_file (run (env_mail false) args_send world).2
  = Some (expected_state (env_mail false) world [acme; beta]) /\
  outbox (run (env_mail false) args_send world).2 = outbox world.
Proof.
  apply (refused_mail_after_state_saved (env_mail false) args_send world [acme; beta]
           "me@acme.test" "secret");
    [reflexivity|discriminate|fetches_return|vm_compute; discriminate
    |reflexivity|reflexivity|discriminate|reflexivity|discriminate|reflexivity].
Defined.

Lemma second_run_is_silent_witness :
  NoDup (ticker <$> [acme; beta]) /\
  (run env_ok args_send (run env_ok args world).2).1 = 0%Z /\
  outbox (run env_ok args_send (run env_ok args world).2).2
  = outbox (run env_ok args world).2 /\
  last (stdout (run env_ok args_send (run env_ok args world).2).2)
  = Some (Print "No changes detected.").
Proof.
  assert (NoDup (ticker <$> [acme; beta])) as Hnd.
  { apply NoDup_cons. split; [|apply NoDup_singleton].
    rewrite list_elem_of_singleton. discriminate. }
  split; [exact Hnd|].
  apply (second_run_is_silent env_ok args args_send world [acme; beta]);
    [reflexivity|discriminate|exact Hnd|reflexivity|].
  intros c Hc. rewrite !elem_of_cons, elem_of_nil in Hc.
  destruct Hc as [->|[->|[]]]; vm_compute; reflexivity.
Defined.

End MoreWitnesses.
